(** * autojob frontend: push transport, event registry, notification poller
      and job store

    A shallow embedding of
      - the socket service, [services/socket.ts] (class [SocketService];
        the file [src/unnamed/part_003]),
      - the notification poller, [hooks/useNotificationPoller.ts]
        ([showNotification], [pollNotifications]),
      - the job store, [stores/jobStore.ts] ([useJobStore.updateJobStatus];
        second half of [src/frontend/src/stores/profileStore.ts]),
    together with the properties of the specification that concern them.

    Conventions.
      - A JavaScript [Set] iterates in insertion order and holds no value
        twice: it is a list without duplicates, oldest entry first.
      - A JavaScript [Map<string, _>] that is only read by key is a [gmap].
      - Browser objects ([WebSocket], timers, the toast library, the console)
        are the environment: what the code does to them is recorded as a
        list of observations, in program order.
      - Handlers given to [on] are opaque closures, identified by reference;
        an invocation is recorded, the handler is taken to return normally
        and not to call back into the service while it runs. *)

From stdpp Require Import gmap strings list pretty sorting.

Local Open Scope string_scope.
Local Open Scope nat_scope.
Local Open Scope list_scope.

(** ** JSON scalars, as far as the code looks at them *)

Inductive jsval :=
| JNull
| JBool (b : bool)
| JNum (z : Z)
| JStr (s : string)
| JOpaque (n : nat).

Global Instance jsval_eq_dec : EqDecision jsval.
Proof. solve_decision. Defined.

(** JavaScript truthiness of a scalar ([JOpaque] stands for an object). *)
Definition truthy (v : jsval) : bool :=
  match v with
  | JNull => false
  | JBool b => b
  | JNum z => negb (Z.eqb z 0)
  | JStr s => negb (String.eqb s "")
  | JOpaque _ => true
  end.

(** ** A JavaScript [Set<T>] *)

Module JsSet.
Section ops.
Context {A : Type} `{EqDecision A}.

Definition has (k : A) (s : list A) : bool := bool_decide (k ∈ s).

Definition add (k : A) (s : list A) : list A :=
  if has k s then s else s ++ [k].

Definition delete (k : A) (s : list A) : list A :=
  filter (λ x, x ≠ k) s.

Definition size (s : list A) : nat := length s.

(** [Array.from(s)] *)
Definition to_array (s : list A) : list A := s.

(** [new Set(arr)] *)
Definition of_array (arr : list A) : list A :=
  foldl (λ s k, add k s) [] arr.

(** [arr.slice(-n)] *)
Definition slice_last (n : nat) (arr : list A) : list A :=
  drop (length arr - n) arr.
End ops.
End JsSet.

(** ** Notification poller *)

Module Poller.

Inductive Priority := low | normal | high | urgent.

Global Instance Priority_eq_dec : EqDecision Priority.
Proof. solve_decision. Defined.

Record SystemNotification := {
  type : string;
  title : string;
  message : string;
  job_id : option string;
  profile_id : option string;
  priority : Priority;
  data : option (gmap string jsval);
  action_url : option string;
  requires_action : bool;
  created_at : string;
}.

Definition POLL_INTERVAL : Z := 10000.

(** What a call of the toast library looks like. *)
Inductive ToastFn := toast_plain | toast_error | toast_success.
Inductive Icon := icon_lock | icon_warning.

Record Toast := {
  fn : ToastFn;
  text : string;
  duration : Z;
  icon : option Icon;
  background : string;
  color : string;
  border : string;
}.

(** Observations of [showNotification]: the accesses to the seen-set and the
    alert it renders. [Present] keeps the notification next to the toast. *)
Inductive Op :=
| Check (key : string)
| Insert (key : string)
| Truncate
| Present (n : SystemNotification) (t : Toast).

(** [notification.job_id || ''] *)
Definition job_id_or_empty (n : SystemNotification) : string :=
  match job_id n with
  | Some s => if String.eqb s "" then "" else s
  | None => ""
  end.

(** [`${notification.type}-${notification.created_at}-${notification.job_id || ''}`] *)
Definition notificationKey (n : SystemNotification) : string :=
  type n +:+ "-" +:+ created_at n +:+ "-" +:+ job_id_or_empty n.

(** The [switch (notification.priority)] of [showNotification]. *)
Definition toast_of (n : SystemNotification) : option Toast :=
  let message := title n +:+ ": " +:+ message n in
  match priority n with
  | urgent | high =>
      if String.eqb (type n) "error" || String.eqb (type n) "job_failed" then
        Some {| fn := toast_error; text := message; duration := 8000%Z;
                icon := None;
                background := "#1e1e2e"; color := "#f38ba8"; border := "1px solid #f38ba8" |}
      else if String.eqb (type n) "captcha_detected" then
        Some {| fn := toast_plain; text := message; duration := 10000%Z;
                icon := Some icon_lock;
                background := "#1e1e2e"; color := "#fab387"; border := "1px solid #fab387" |}
      else
        Some {| fn := toast_plain; text := message; duration := 6000%Z;
                icon := Some icon_warning;
                background := "#1e1e2e"; color := "#f9e2af"; border := "1px solid #f9e2af" |}
  | normal =>
      if String.eqb (type n) "job_completed" || String.eqb (type n) "submit_ready" then
        Some {| fn := toast_success; text := message; duration := 5000%Z;
                icon := None;
                background := "#1e1e2e"; color := "#a6e3a1"; border := "1px solid #a6e3a1" |}
      else
        Some {| fn := toast_plain; text := message; duration := 4000%Z;
                icon := None;
                background := "#1e1e2e"; color := "#cdd6f4"; border := "1px solid #45475a" |}
  | low => None
  end.

(** [showNotification]: the seen-set [shownNotificationsRef.current] goes in
    and comes out. *)
Definition showNotification (n : SystemNotification) (shown : list string)
  : list string * list Op :=
  let notificationKey := notificationKey n in
  if JsSet.has notificationKey shown then (shown, [Check notificationKey])
  else
    let shown1 := JsSet.add notificationKey shown in
    let '(shown2, trunc) :=
      if decide (100 < JsSet.size shown1) then
        let arr := JsSet.to_array shown1 in
        (JsSet.of_array (JsSet.slice_last 50 arr), [Truncate])
      else (shown1, []) in
    (shown2,
     [Check notificationKey; Insert notificationKey] ++ trunc ++
     match toast_of n with Some t => [Present n t] | None => [] end).

(** The hook's two refs. *)
Record Refs := {
  lastSeenRef : option string;
  shownNotificationsRef : list string;
}.

Definition initial : Refs :=
  {| lastSeenRef := None; shownNotificationsRef := [] |}.

(** Body of the [for ... of response.notifications] loop. *)
Definition poll_body (acc : list string * list Op) (notification : SystemNotification)
  : list string * list Op :=
  if bool_decide (priority notification = high) || bool_decide (priority notification = urgent) then
    let '(shown', ops) := showNotification notification acc.1 in
    (shown', acc.2 ++ ops)
  else acc.

(** [pollNotifications]: one tick. The response is [None] when the fetch (or
    anything else inside the [try]) throws. *)
Definition pollNotifications (response : option (list SystemNotification)) (r : Refs)
  : Refs * list Op :=
  match response with
  | None => (r, [])
  | Some notifications =>
      match notifications with
      | [] => (r, [])
      | first :: _ =>
          let '(shown', ops) := foldl poll_body (shownNotificationsRef r, []) notifications in
          ({| lastSeenRef := Some (created_at first); shownNotificationsRef := shown' |}, ops)
      end
  end.

(** A sequence of ticks, each with the response its fetch got. *)
Fixpoint run_ticks (ticks : list (option (list SystemNotification))) (r : Refs)
  : Refs * list Op :=
  match ticks with
  | [] => (r, [])
  | resp :: rest =>
      let '(r1, ops1) := pollNotifications resp r in
      let '(r2, ops2) := run_ticks rest r1 in
      (r2, ops1 ++ ops2)
  end.

(** A sequence of direct calls of [showNotification]. *)
Fixpoint run_show (ns : list SystemNotification) (shown : list string)
  : list string * list Op :=
  match ns with
  | [] => (shown, [])
  | n :: rest =>
      let '(s1, ops1) := showNotification n shown in
      let '(s2, ops2) := run_show rest s1 in
      (s2, ops1 ++ ops2)
  end.

(** Reading the observations. *)
Definition inserted (ops : list Op) : list string :=
  omap (λ o, match o with Insert k => Some k | _ => None end) ops.

Definition checked (ops : list Op) : list string :=
  omap (λ o, match o with Check k => Some k | _ => None end) ops.

Definition presented (ops : list Op) : list SystemNotification :=
  omap (λ o, match o with Present n _ => Some n | _ => None end) ops.

Definition toasts (ops : list Op) : list Toast :=
  omap (λ o, match o with Present _ t => Some t | _ => None end) ops.

Definition is_Truncate (o : Op) : bool :=
  match o with Truncate => true | _ => false end.

Definition high_or_urgent (n : SystemNotification) : bool :=
  bool_decide (priority n = high) || bool_decide (priority n = urgent).

(** The triple the dedup key is derived from. *)
Definition triple (n : SystemNotification) : string * string * option string :=
  (type n, created_at n, job_id n).

(** All notifications of a sequence of ticks whose fetch succeeded. *)
Definition fetched (ticks : list (option (list SystemNotification)))
  : list SystemNotification :=
  concat (omap id ticks).

(** Number of alerts presented for a triple. *)
Definition alerts_for (k : string * string * option string) (ops : list Op) : nat :=
  length (filter (λ n, triple n = k) (presented ops)).

Definition truncated (ops : list Op) : bool := existsb is_Truncate ops.

(** *** Invariants *)

(** The seen-set against the history of insertions: no key twice, the set is
    the end of the history, it holds at most 100 keys and at least the last
    50 inserted (all of them while fewer were inserted). *)
Record Inv (s hist : list string) : Prop := {
  inv_nodup : NoDup s;
  inv_suffix : s `suffix_of` hist;
  inv_le : length s ≤ 100;
  inv_ge : min 50 (length hist) ≤ length s;
}.

(** Equal keys in the history of insertions are more than 50 places apart. *)
Definition spaced (hist : list string) : Prop :=
  ∀ i j k, i < j → hist !! i = Some k → hist !! j = Some k → i + 50 < j.

(** The reading of the dedup guarantee without a bound. *)
Definition at_most_one_alert_per_triple : Prop :=
  ∀ ticks k, alerts_for k (run_ticks ticks initial).2 ≤ 1.

(** Sample data. *)
Definition mk (ty : string) (prio : Priority) (at_ : string) (job : option string)
  : SystemNotification :=
  {| type := ty; title := "Job"; message := ty; job_id := job; profile_id := None;
     priority := prio; data := None; action_url := None; requires_action := false;
     created_at := at_ |}.

Definition sample (i : nat) : SystemNotification := mk "info" high (pretty i) None.

Definition samples (from count : nat) : list SystemNotification :=
  map sample (seq from count).

Definition alert_A : SystemNotification :=
  mk "error" high "2024-05-01T10:00:00Z" (Some "J1").

Definition info_B : SystemNotification :=
  mk "info" normal "2024-05-01T10:00:01Z" (Some "J1").

(** Same type and timestamp, job absent against job [""]. *)
Definition no_job : SystemNotification :=
  mk "captcha_detected" high "2024-05-01T10:00:00Z" None.

Definition empty_job : SystemNotification :=
  mk "captcha_detected" high "2024-05-01T10:00:00Z" (Some "").

(** A ['-'] that moves from the type to the timestamp. *)
Definition dash_in_type : SystemNotification :=
  mk "job-failed" urgent "2024-05-01" (Some "J1").

Definition dash_in_stamp : SystemNotification :=
  mk "job" urgent "failed-2024-05-01" (Some "J1").

(** [alert_A], five ticks of twenty new notifications each, [alert_A] again. *)
Definition eviction_ticks : list (option (list SystemNotification)) :=
  Some [alert_A] :: map (λ b, Some (samples (20 * b) 20)) (seq 0 5) ++ [Some [alert_A]].

End Poller.

(** ** Transport client and event registry: [SocketService] *)

Module Socket.

(** [WebSocket.readyState] *)
Inductive ReadyState := CONNECTING | OPEN | CLOSING | CLOSED.

Global Instance ReadyState_eq_dec : EqDecision ReadyState.
Proof. solve_decision. Defined.

(** What a handler receives ([data: unknown]): the result of [JSON.parse] or
    an object built by the service. *)
Inductive jsdata :=
| DVal (v : jsval)
| DObj (m : gmap string jsval).

(** The fields of the class. Sockets and handlers are references: a socket is
    its index in the list of sockets created so far, a handler a number. *)
Record SocketService := {
  ws : option nat;
  handlers : gmap string (list nat);
  reconnectAttempts : nat;
  isConnecting : bool;
}.

Definition maxReconnectAttempts : nat := 5.
Definition reconnectDelay : Z := 3000.

(** The service and the browser state around it: every [WebSocket] created so
    far with its ready state, the number of pending reconnect timers, and
    [window.location]. *)
Record World := {
  svc : SocketService;
  sockets : list ReadyState;
  timers : nat;
  location_protocol : string;
  location_host : string;
}.

Inductive LogMsg :=
| LConnecting (url : string)
| LConnected
| LDisconnected
| LReconnecting (delay : Z) (attempt : nat).

(** What the service does to its environment, in program order. [Emit]
    marks the entry into [emit(type, _)], [Invoke] the call of one handler,
    [WsClose] and [WsSend] the calls [ws.close()] and [ws.send(...)],
    [SetTimeout] the scheduling of a reconnect. *)
Inductive Obs :=
| ConsoleLog (m : LogMsg)
| ConsoleWarn (m : string)
| ConsoleError (m : string)
| NewWebSocket (id : nat) (url : string)
| WsClose (id : nat)
| WsSend (id : nat) (frame : gmap string jsval)
| SetTimeout (delay : Z)
| Emit (type : string)
| Invoke (handler : nat) (d : jsdata).

Definition initial (protocol host : string) : World :=
  {| svc := {| ws := None; handlers := ∅; reconnectAttempts := 0; isConnecting := false |};
     sockets := []; timers := 0;
     location_protocol := protocol; location_host := host |}.

Definition set_svc (s : SocketService) (w : World) : World :=
  {| svc := s; sockets := sockets w; timers := timers w;
     location_protocol := location_protocol w; location_host := location_host w |}.

(** [this.ws?.readyState === WebSocket.OPEN], also the getter [isConnected]. *)
Definition isConnected (w : World) : bool :=
  match ws (svc w) with
  | Some id => bool_decide (sockets w !! id = Some OPEN)
  | None => false
  end.

(** *** Registry *)

(** [on(type, handler)] *)
Definition on (type : string) (handler : nat) (hs : gmap string (list nat))
  : gmap string (list nat) :=
  let hs1 := match hs !! type with Some _ => hs | None => <[type := []]> hs end in
  alter (JsSet.add handler) type hs1.

(** The disposer returned by [on(type, handler)]:
    [this.handlers.get(type)?.delete(handler)] *)
Definition unsubscribe (type : string) (handler : nat) (hs : gmap string (list nat))
  : gmap string (list nat) :=
  alter (JsSet.delete handler) type hs.

(** [this.handlers.get(type)?.forEach(...)] visits these, in this order. *)
Definition registered (hs : gmap string (list nat)) (type : string) : list nat :=
  default [] (hs !! type).

(** [emit(type, data)] *)
Definition emit (hs : gmap string (list nat)) (type : string) (d : jsdata) : list Obs :=
  Emit type ::
  map (λ handler, Invoke handler d) (registered hs type) ++
  (if decide (type ≠ "message")
   then map (λ handler, Invoke handler d) (registered hs "message")
   else []).

(** *** Connection *)

(** [connect()] *)
Definition connect (w : World) : World * list Obs :=
  if isConnected w || isConnecting (svc w) then (w, [])
  else
    let protocol := if String.eqb (location_protocol w) "https:" then "wss:" else "ws:" in
    let host := location_host w in
    let url := protocol +:+ "//" +:+ host +:+ "/ws" in
    let id := length (sockets w) in
    ({| svc := {| ws := Some id; handlers := handlers (svc w);
                  reconnectAttempts := reconnectAttempts (svc w);
                  isConnecting := true |};
        sockets := sockets w ++ [CONNECTING];
        timers := timers w;
        location_protocol := location_protocol w; location_host := location_host w |},
     [ConsoleLog (LConnecting url); NewWebSocket id url]).

(** [this.ws.onopen] *)
Definition onopen (w : World) : World * list Obs :=
  (set_svc {| ws := ws (svc w); handlers := handlers (svc w);
              reconnectAttempts := 0; isConnecting := false |} w,
   ConsoleLog LConnected :: emit (handlers (svc w)) "connected" (DObj ∅)).

(** [this.ws.onclose] *)
Definition onclose (w : World) : World * list Obs :=
  let out := ConsoleLog LDisconnected :: emit (handlers (svc w)) "disconnected" (DObj ∅) in
  if decide (reconnectAttempts (svc w) < maxReconnectAttempts) then
    let attempts := S (reconnectAttempts (svc w)) in
    ({| svc := {| ws := None; handlers := handlers (svc w);
                  reconnectAttempts := attempts; isConnecting := false |};
        sockets := sockets w;
        timers := S (timers w);
        location_protocol := location_protocol w; location_host := location_host w |},
     out ++ [ConsoleLog (LReconnecting reconnectDelay attempts); SetTimeout reconnectDelay])
  else
    (set_svc {| ws := None; handlers := handlers (svc w);
                reconnectAttempts := reconnectAttempts (svc w);
                isConnecting := false |} w,
     out).

(** [this.ws.onerror] *)
Definition onerror (error : nat) (w : World) : World * list Obs :=
  (w, ConsoleError "WebSocket error:" ::
      emit (handlers (svc w)) "error" (DObj {[ "error" := JOpaque error ]})).

(** [this.ws.onmessage]; [parsed] is [None] when [JSON.parse(event.data)]
    throws. Reading [.type] of [null] throws inside the same [try]. A truthy
    [type] that is not a string is no key of the registry and differs from
    ['message']. *)
Definition onmessage (parsed : option jsdata) (w : World) : World * list Obs :=
  let hs := handlers (svc w) in
  let failed := [ConsoleError "Failed to parse WebSocket message:"] in
  match parsed with
  | None => (w, failed)
  | Some (DVal JNull) => (w, failed)
  | Some (DVal v) => (w, emit hs "message" (DVal v))
  | Some (DObj m) =>
      match m !! "type" with
      | Some (JStr s) =>
          if String.eqb s "" then (w, emit hs "message" (DObj m))
          else (w, emit hs s (DObj m))
      | Some v =>
          if truthy v
          then (w, map (λ handler, Invoke handler (DObj m)) (registered hs "message"))
          else (w, emit hs "message" (DObj m))
      | None => (w, emit hs "message" (DObj m))
      end
  end.

(** [ws.close()] on the browser's side: an open or opening socket starts
    closing; its close event comes later. *)
Definition close_socket (st : ReadyState) : ReadyState :=
  match st with
  | CONNECTING | OPEN => CLOSING
  | CLOSING => CLOSING
  | CLOSED => CLOSED
  end.

(** [disconnect()] *)
Definition disconnect (w : World) : World * list Obs :=
  match ws (svc w) with
  | Some id =>
      ({| svc := {| ws := None; handlers := handlers (svc w);
                    reconnectAttempts := reconnectAttempts (svc w);
                    isConnecting := isConnecting (svc w) |};
          sockets := alter close_socket id (sockets w);
          timers := timers w;
          location_protocol := location_protocol w; location_host := location_host w |},
       [WsClose id])
  | None => (w, [])
  end.

(** [{ type, ...payload }]: the payload's own keys are written last. *)
Definition frame_of (type : string) (payload : gmap string jsval) : gmap string jsval :=
  payload ∪ {[ "type" := JStr type ]}.

(** [send(type, payload)] *)
Definition send (type : string) (payload : gmap string jsval) (w : World)
  : World * list Obs :=
  let warn := [ConsoleWarn "WebSocket not connected, cannot send message"] in
  match ws (svc w) with
  | Some id =>
      if bool_decide (sockets w !! id = Some OPEN)
      then (w, [WsSend id (frame_of type payload)])
      else (w, warn)
  | None => (w, warn)
  end.

(** [subscribeToProfile(profileId)] and [resumeJob(jobId)] *)
Definition subscribeToProfile (profileId : string) (w : World) : World * list Obs :=
  send "subscribe:profile" {[ "profile_id" := JStr profileId ]} w.

Definition resumeJob (jobId : string) (w : World) : World * list Obs :=
  send "job:resume" {[ "job_id" := JStr jobId ]} w.

(** *** Everything that can happen to the service

    Calls from the application, and callbacks from the browser. The browser
    fires [open] on a socket that is connecting, [message] on one that is
    open, [close] once on a socket that is not yet closed, [error] before
    that, and a reconnect timer when one is pending. *)
Inductive Event :=
| CallConnect
| CallDisconnect
| CallSend (type : string) (payload : gmap string jsval)
| CallOn (type : string) (handler : nat)
| CallUnsubscribe (type : string) (handler : nat)
| EvTimer
| EvOpen (id : nat)
| EvClose (id : nat)
| EvError (id : nat) (error : nat)
| EvMessage (id : nat) (parsed : option jsdata).

Definition set_socket (id : nat) (st : ReadyState) (w : World) : World :=
  {| svc := svc w; sockets := <[id := st]> (sockets w); timers := timers w;
     location_protocol := location_protocol w; location_host := location_host w |}.

Definition set_handlers (hs : gmap string (list nat)) (w : World) : World :=
  set_svc {| ws := ws (svc w); handlers := hs;
             reconnectAttempts := reconnectAttempts (svc w);
             isConnecting := isConnecting (svc w) |} w.

Definition step (e : Event) (w : World) : option (World * list Obs) :=
  match e with
  | CallConnect => Some (connect w)
  | CallDisconnect => Some (disconnect w)
  | CallSend type payload => Some (send type payload w)
  | CallOn type handler => Some (set_handlers (on type handler (handlers (svc w))) w, [])
  | CallUnsubscribe type handler =>
      Some (set_handlers (unsubscribe type handler (handlers (svc w))) w, [])
  | EvTimer =>
      match timers w with
      | S n =>
          Some (connect {| svc := svc w; sockets := sockets w; timers := n;
                           location_protocol := location_protocol w;
                           location_host := location_host w |})
      | O => None
      end
  | EvOpen id =>
      match sockets w !! id with
      | Some CONNECTING => Some (onopen (set_socket id OPEN w))
      | _ => None
      end
  | EvClose id =>
      match sockets w !! id with
      | Some CLOSED | None => None
      | Some _ => Some (onclose (set_socket id CLOSED w))
      end
  | EvError id error =>
      match sockets w !! id with
      | Some CLOSED | None => None
      | Some _ => Some (onerror error w)
      end
  | EvMessage id parsed =>
      match sockets w !! id with
      | Some OPEN => Some (onmessage parsed w)
      | _ => None
      end
  end.

(** A run: each event with what it made the service do. *)
Fixpoint exec (evs : list Event) (w : World) : option (World * list (Event * list Obs)) :=
  match evs with
  | [] => Some (w, [])
  | e :: rest =>
      match step e w with
      | Some (w1, out) =>
          match exec rest w1 with
          | Some (w2, tr) => Some (w2, (e, out) :: tr)
          | None => None
          end
      | None => None
      end
  end.

(** Reading a run. *)
Definition is_SetTimeout (o : Obs) : bool :=
  match o with SetTimeout _ => true | _ => false end.

Definition is_NewWebSocket (o : Obs) : bool :=
  match o with NewWebSocket _ _ => true | _ => false end.

Definition is_WsSend (o : Obs) : bool :=
  match o with WsSend _ _ => true | _ => false end.

Definition is_EvOpen (e : Event) : bool :=
  match e with EvOpen _ => true | _ => false end.

Definition is_EvClose (e : Event) : bool :=
  match e with EvClose _ => true | _ => false end.

Definition is_CallConnect (e : Event) : bool :=
  match e with CallConnect => true | _ => false end.

(** Number of reconnects scheduled by one event, by a run. *)
Definition scheduled_by (out : list Obs) : nat := length (filter is_SetTimeout out).

Definition scheduled (tr : list (Event * list Obs)) : nat :=
  sum_list (map (λ p, scheduled_by p.2) tr).

(** Per close event of a run, the number of reconnects it scheduled. *)
Definition scheduled_per_close (tr : list (Event * list Obs)) : list nat :=
  map (λ p, scheduled_by p.2) (filter (λ p, is_EvClose p.1) tr).

(** The ['connected'] and ['disconnected'] events among observations, and
    those of a run, in order. *)
Definition links (out : list Obs) : list string :=
  omap (λ o, match o with
             | Emit t => if String.eqb t "connected" || String.eqb t "disconnected"
                         then Some t else None
             | _ => None
             end) out.

Definition link_events (tr : list (Event * list Obs)) : list string :=
  links (concat (map snd tr)).

(** No two ['connected'] in a row; [prev] tells whether a ['connected']
    came last before the list. *)
Fixpoint no_double_connected_from (prev : bool) (l : list string) : bool :=
  match l with
  | e :: rest =>
      if String.eqb e "connected"
      then negb prev && no_double_connected_from true rest
      else no_double_connected_from false rest
  | [] => true
  end.

Definition no_double_connected (l : list string) : bool :=
  no_double_connected_from false l.

Definition opened_by (out : list Obs) : nat := length (filter is_NewWebSocket out).

(** Per event of a run: reconnects scheduled, sockets created. *)
Definition activity (tr : list (Event * list Obs)) : list (nat * nat) :=
  map (λ p, (scheduled_by p.2, opened_by p.2)) tr.

(** The world a run ends in. *)
Definition after (evs : list Event) (w : World) : World :=
  match exec evs w with Some (w', _) => w' | None => w end.

(** *** History of the registry *)

Inductive RegOp :=
| OpOn (type : string) (handler : nat)
| OpOff (type : string) (handler : nat).

Definition apply_op (hs : gmap string (list nat)) (o : RegOp) : gmap string (list nat) :=
  match o with
  | OpOn type handler => on type handler hs
  | OpOff type handler => unsubscribe type handler hs
  end.

Definition registry_after (ops : list RegOp) : gmap string (list nat) :=
  foldl apply_op ∅ ops.

Definition reg_ops (evs : list Event) : list RegOp :=
  omap (λ e, match e with
             | CallOn type handler => Some (OpOn type handler)
             | CallUnsubscribe type handler => Some (OpOff type handler)
             | _ => None
             end) evs.

(** Read off the history alone: the position of the [on] that made [handler]
    registered under [type] and after which it was not disposed; [None] when
    it is not registered. *)
Definition since_step (type : string) (handler : nat)
    (acc : nat * option nat) (o : RegOp) : nat * option nat :=
  (S acc.1,
   match o with
   | OpOn t h =>
       if decide (t = type ∧ h = handler)
       then match acc.2 with Some i => Some i | None => Some acc.1 end
       else acc.2
   | OpOff t h =>
       if decide (t = type ∧ h = handler) then None else acc.2
   end).

Definition registered_since (ops : list RegOp) (type : string) (handler : nat)
  : option nat :=
  (foldl (since_step type handler) (0, None) ops).2.

Definition registered_before (ops : list RegOp) (type : string) (h1 h2 : nat) : Prop :=
  ∃ i j, registered_since ops type h1 = Some i ∧
         registered_since ops type h2 = Some j ∧ i < j.

(** *** Invariants of a run *)

(** No socket is open. *)
Definition none_open (w : World) : Prop := OPEN ∉ sockets w.

(** Expected schedule of [n] close events in a row, from counter [c]. *)
Fixpoint expected (c n : nat) : list nat :=
  match n with
  | 0 => []
  | S n' =>
      if decide (c < maxReconnectAttempts)
      then 1 :: expected (S c) n'
      else 0 :: expected c n'
  end.

(** What [emit] does is dispatch only. *)
Definition dispatch_only (o : Obs) : Prop :=
  match o with Emit _ | Invoke _ _ => True | _ => False end.

(** The registry against its history. *)
Record RegInv (ops : list RegOp) (type : string) : Prop := {
  reg_nodup : NoDup (registered (registry_after ops) type);
  reg_elem : ∀ h, h ∈ registered (registry_after ops) type
                  ↔ is_Some (registered_since ops type h);
  reg_bound : ∀ h i, registered_since ops type h = Some i → i < length ops;
  reg_sorted : StronglySorted (registered_before ops type)
                 (registered (registry_after ops) type);
}.

(** The service and its sockets agree: only the socket the service refers to
    is not closed; it is connecting or open, as [isConnecting] tells; and
    ['connected'] was reported last ([last_connected]) exactly when it is
    open. *)
Record Linked (w : World) (last_connected : bool) : Prop := {
  linked_others : ∀ i st, sockets w !! i = Some st → st ≠ CLOSED → ws (svc w) = Some i;
  linked_ws : ∀ i, ws (svc w) = Some i →
    (sockets w !! i = Some CONNECTING ∧ isConnecting (svc w) = true ∧ last_connected = false)
    ∨ (sockets w !! i = Some OPEN ∧ isConnecting (svc w) = false ∧ last_connected = true);
  linked_none : ws (svc w) = None → isConnecting (svc w) = false ∧ last_connected = false;
}.

(** An event that is no [disconnect()] and no inbound frame that carries one
    of the two local types. *)
Definition plain_event (e : Event) : bool :=
  match e with
  | CallDisconnect => false
  | EvMessage _ (Some (DObj m)) =>
      negb (bool_decide (m !! "type" = Some (JStr "connected"))
            || bool_decide (m !! "type" = Some (JStr "disconnected")))
  | _ => true
  end.

(** The reading of [disconnect()] under which it suppresses reconnects: from
    a state the service can reach, a run that starts with [disconnect()] and
    holds no external [connect()] schedules no reconnect and opens no
    socket. *)
Definition disconnect_suppresses_reconnect : Prop :=
  ∀ protocol host evs0 w tr0 evs w' tr,
    exec evs0 (initial protocol host) = Some (w, tr0) →
    exec (CallDisconnect :: evs) w = Some (w', tr) →
    Forall (λ e, is_CallConnect e = false) evs →
    Forall (λ a, a = (0, 0)) (activity tr).

(** *** Tactics *)

(** From [Some (f w) = Some (w', out)] to [w' = (f w).1] and [out = (f w).2]. *)
Ltac step_inv H :=
  apply (inj Some) in H;
  let H1 := fresh in
  let H2 := fresh in
  pose proof (f_equal fst H) as H1; pose proof (f_equal snd H) as H2;
  cbn [fst snd] in H1, H2; clear H; subst.

(** Sample data. *)
Definition w0 : World := initial "https:" "app.example".

Definition six_closes : list Event :=
  [EvClose 0; EvTimer; EvClose 1; EvTimer; EvClose 2; EvTimer;
   EvClose 3; EvTimer; EvClose 4; EvTimer; EvClose 5].

Definition registrations : list Event :=
  [CallOn "connected" 1; CallOn "message" 2; CallOn "connected" 3;
   CallUnsubscribe "connected" 1; CallOn "connected" 1; CallOn "connected" 3;
   CallConnect].

Definition two_links : list Event :=
  [CallConnect; EvOpen 0; CallDisconnect; CallConnect; EvClose 0; EvOpen 1;
   EvTimer; EvOpen 2].

End Socket.

(** ** Job store: [useJobStore] *)

Module JobStore.

Record Job := {
  id : string;
  profile_id : string;
  url : string;
  url_hash : string;
  company_name : option string;
  job_title : option string;
  location : option string;
  salary_range : option string;
  status : string;
  error_message : option string;
  confirmation_reference : option string;
  retry_count : Z;
  max_retries : Z;
  priority : Z;
  metadata : option (gmap string jsval);
  created_at : string;
  updated_at : string;
  started_at : option string;
  applied_at : option string;
}.

Record JobLog := {
  log_id : string;
  action : string;
  details : option (gmap string jsval);
  screenshot_path : option string;
  log_created_at : string;
}.

(** [Job & { logs?: JobLog[] }] *)
Record SelectedJob := {
  job : Job;
  logs : option (list JobLog);
}.

Record Pagination := {
  page : Z;
  pageSize : Z;
  total : Z;
  totalPages : Z;
}.

Record Filters := {
  profileId : option string;
  status_filter : option (list string);
}.

Record JobState := {
  jobs : list Job;
  selectedJob : option SelectedJob;
  isLoading : bool;
  error : option string;
  pagination : Pagination;
  filters : Filters;
}.

(** [{ ...j, status }] *)
Definition with_status (j : Job) (status : string) : Job :=
  {| id := id j; profile_id := profile_id j; url := url j; url_hash := url_hash j;
     company_name := company_name j; job_title := job_title j; location := location j;
     salary_range := salary_range j; status := status;
     error_message := error_message j;
     confirmation_reference := confirmation_reference j;
     retry_count := retry_count j; max_retries := max_retries j; priority := priority j;
     metadata := metadata j; created_at := created_at j; updated_at := updated_at j;
     started_at := started_at j; applied_at := applied_at j |}.

(** [updateJobStatus(id, status)]; [set] merges the two fields it is given
    into the state. *)
Definition updateJobStatus (id0 : string) (status : string) (state : JobState) : JobState :=
  {| jobs := map (λ j, if String.eqb (id j) id0 then with_status j status else j)
                 (jobs state);
     selectedJob :=
       match selectedJob state with
       | Some sj =>
           if String.eqb (id (job sj)) id0
           then Some {| job := with_status (job sj) status; logs := logs sj |}
           else Some sj
       | None => None
       end;
     isLoading := isLoading state;
     error := error state;
     pagination := pagination state;
     filters := filters state |}.

(** Everything of a job but its status. *)
Definition rest_of (j : Job) :=
  (id j, profile_id j, url j, url_hash j, company_name j, job_title j, location j,
   salary_range j, error_message j, confirmation_reference j, retry_count j,
   max_retries j, priority j, metadata j, created_at j, updated_at j, started_at j,
   applied_at j).

(** Sample data. *)
Definition sample_job (id0 status0 : string) : Job :=
  {| id := id0; profile_id := "P1"; url := "https://jobs.example/" +:+ id0;
     url_hash := "h-" +:+ id0; company_name := Some "Acme"; job_title := None;
     location := None; salary_range := None; status := status0;
     error_message := None; confirmation_reference := None;
     retry_count := 0; max_retries := 3; priority := 1; metadata := None;
     created_at := "2024-05-01T09:00:00Z"; updated_at := "2024-05-01T09:30:00Z";
     started_at := Some "2024-05-01T09:10:00Z"; applied_at := None |}.

Definition sample_store : JobState :=
  {| jobs := [sample_job "J1" "in_progress"; sample_job "J2" "pending"];
     selectedJob := Some {| job := sample_job "J1" "in_progress"; logs := Some [] |};
     isLoading := false; error := None;
     pagination := {| page := 1; pageSize := 20; total := 2; totalPages := 1 |};
     filters := {| profileId := None; status_filter := None |} |}.

End JobStore.

(** ** Further readings of the poller *)

Module PollerRuns.
Import Poller.

(** A tick whose fetch succeeded with at least one notification. *)
Definition effective (resp : option (list SystemNotification)) : bool :=
  match resp with
  | Some (_ :: _) => true
  | _ => false
  end.

(** The [created_at] the last effective tick leaves in [lastSeenRef]. *)
Definition last_seen_of (ticks : list (option (list SystemNotification)))
    (before : option string) : option string :=
  foldl (λ acc resp,
           match resp with
           | Some (first :: _) => Some (created_at first)
           | _ => acc
           end) before ticks.

(** The three alert styles of the [high]/[urgent] branch. *)
Definition alert_style (t : Toast) : Prop :=
  (fn t = toast_error ∧ duration t = 8000%Z ∧ icon t = None)
  ∨ (fn t = toast_plain ∧ duration t = 10000%Z ∧ icon t = Some icon_lock)
  ∨ (fn t = toast_plain ∧ duration t = 6000%Z ∧ icon t = Some icon_warning).

(** The alerts of a run with the notification each is for. *)
Definition alerts (ops : list Op) : list (SystemNotification * Toast) :=
  omap (λ o, match o with Present n t => Some (n, t) | _ => None end) ops.

Definition with_lastSeen (v : option string) (r : Refs) : Refs :=
  {| lastSeenRef := v; shownNotificationsRef := shownNotificationsRef r |}.

End PollerRuns.

(** ** Further readings of the socket service *)

Module SocketRuns.
Import Socket.

(** The handler calls among observations, with what each handler got. *)
Definition invocations (out : list Obs) : list (nat * jsdata) :=
  omap (λ o, match o with Invoke h d => Some (h, d) | _ => None end) out.

(** Observations that touch the connection: a socket is created or closed, a
    frame is written, a reconnect is scheduled. *)
Definition touches_connection (o : Obs) : bool :=
  match o with
  | NewWebSocket _ _ | WsClose _ | WsSend _ _ | SetTimeout _ => true
  | _ => false
  end.

(** The handlers registered under the type an inbound frame names itself:
    none for a frame without a usable type and for one typed ['message']. *)
Definition typed_handlers (hs : gmap string (list nat)) (d : jsdata) : list nat :=
  match d with
  | DObj m =>
      match m !! "type" with
      | Some (JStr s) =>
          if String.eqb s "" || String.eqb s "message" then [] else registered hs s
      | _ => []
      end
  | DVal _ => []
  end.

(** What holds of the service in every state it can reach. *)
Record Sound (w : World) : Prop := {
  sound_attempts : reconnectAttempts (svc w) ≤ maxReconnectAttempts;
  sound_ws : ∀ id, ws (svc w) = Some id → id < length (sockets w);
  sound_connected : isConnected w = true → isConnecting (svc w) = false;
}.

End SocketRuns.

(** ** The hook [useWebSocket] (hooks/useWebSocket.ts) *)

Module Hook.
Import Socket.

(** The closures one run of the effect creates; [hMessage] is there when the
    caller passed [onMessage]. *)
Record Handlers := {
  hConnected : nat;
  hDisconnected : nat;
  hStatusChanged : nat;
  hIntervention : nat;
  hCompleted : nat;
  hNotification : nat;
  hMessage : option nat;
}.

(** The calls of [socketService.on] of the effect, in order. *)
Definition subscriptions (hh : Handlers) : list (string * nat) :=
  [("connected", hConnected hh);
   ("disconnected", hDisconnected hh);
   ("job_status_changed", hStatusChanged hh);
   ("intervention_needed", hIntervention hh);
   ("job_completed", hCompleted hh);
   ("notification", hNotification hh)] ++
  match hMessage hh with
  | Some h => [("message", h)]
  | None => []
  end.

(** The effect: [socketService.connect()], then the subscriptions. *)
Definition mount (hh : Handlers) (w : World) : World * list Obs :=
  let '(w1, out) := connect w in
  (set_handlers (foldl (λ hs p, on p.1 p.2 hs) (handlers (svc w1)) (subscriptions hh)) w1,
   out).

(** The function the effect returns: the disposers, in the same order. *)
Definition cleanup (hh : Handlers) (w : World) : World :=
  set_handlers
    (foldl (λ hs p, unsubscribe p.1 p.2 hs) (handlers (svc w)) (subscriptions hh)) w.

(** [WebSocketMessage]: [{ type: string, [key: string]: unknown }] *)
Record WebSocketMessage := {
  mtype : string;
  mfields : gmap string jsval;
}.

Definition to_object (message : WebSocketMessage) : gmap string jsval :=
  <["type" := JStr (mtype message)]> (mfields message).

(** [sendMessage(message)]: [socketService.send(message.type, message)] *)
Definition sendMessage (message : WebSocketMessage) (w : World) : World * list Obs :=
  send (mtype message) (to_object message) w.

(** What the hook's own functions do besides calling the service. *)
Inductive HookObs :=
| Service (o : Obs)
| ToastSuccess (text : string).

(** The hook's [resumeJob(jobId)] *)
Definition resumeJob (jobId : string) (w : World) : World * list HookObs :=
  let '(w1, out) := Socket.resumeJob jobId w in
  (w1, map Service out ++ [ToastSuccess "Resuming job..."]).

(** No handler of the effect is registered yet under its type. *)
Definition fresh (hh : Handlers) (hs : gmap string (list nat)) : Prop :=
  Forall (λ p, p.2 ∉ registered hs p.1) (subscriptions hh).

(** Sample data. *)
Definition sample_handlers : Handlers :=
  {| hConnected := 11; hDisconnected := 12; hStatusChanged := 13; hIntervention := 14;
     hCompleted := 15; hNotification := 16; hMessage := Some 17 |}.

End Hook.

(** ** Job store: the other actions of [useJobStore] *)

Module JobActions.
Import JobStore.

(** What [jobApi.list], [jobApi.createBulk] and [jobApi.startProcessing]
    answer. *)
Record JobPage := {
  r_jobs : list Job;
  r_total : Z;
  r_page : Z;
  r_page_size : Z;
  r_total_pages : Z;
}.

Record BulkResult := {
  created : Z;
  duplicates : Z;
  errors : Z;
  job_ids : list string;
  duplicate_urls : list string;
  error_messages : list string;
}.

Record Queued := {
  q_message : string;
  queued : Z;
}.


(** [set({ selectedJob: job })] *)
Definition setSelectedJob (j : option Job) (state : JobState) : JobState :=
  {| jobs := jobs state;
     selectedJob := (λ j, {| job := j; logs := None |}) <$> j;
     isLoading := isLoading state; error := error state;
     pagination := pagination state; filters := filters state |}.

(** [set({ error: null })] *)
Definition clearError (state : JobState) : JobState :=
  {| jobs := jobs state; selectedJob := selectedJob state;
     isLoading := isLoading state; error := None;
     pagination := pagination state; filters := filters state |}.




Section actions.

(** [getErrorMessage] of [stores/utils] and the values a promise rejects
    with are taken as given. *)
Context {Err : Type} (getErrorMessage : Err → string → string).

(** How an awaited request ends, and how the action's own promise ends. *)
Inductive Outcome (A : Type) :=
| Resolved (a : A)
| Rejected (e : Err).

Inductive Settled (A : Type) :=
| Returned (a : A)
| Thrown (e : Err).

Arguments Resolved {A} a.
Arguments Rejected {A} e.
Arguments Returned {A} a.
Arguments Thrown {A} e.


(** [set({ error: getErrorMessage(error, fallback), isLoading: false })] *)
Definition set_failed (e : Err) (fallback : string) (state : JobState) : JobState :=
  {| jobs := jobs state; selectedJob := selectedJob state;
     isLoading := false; error := Some (getErrorMessage e fallback);
     pagination := pagination state; filters := filters state |}.


(** The request of [fetchJobs(page)], read off the state before anything is
    set: [profile_id], [status], [page], [page_size]. *)
Definition fetchJobs_request (page : Z) (state : JobState)
  : option string * option (list string) * Z * Z :=
  (profileId (filters state), status_filter (filters state), page,
   pageSize (pagination state)).






(** [deleteJob(id)], after the await. *)
Definition deleteJob_settle (id0 : string) (o : Outcome unit) (state : JobState)
  : JobState * Settled unit :=
  match o with
  | Resolved _ =>
      ({| jobs := filter (λ j, id j ≠ id0) (jobs state);
          selectedJob :=
            match selectedJob state with
            | Some sj => if String.eqb (id (job sj)) id0 then None else Some sj
            | None => None
            end;
          isLoading := false; error := error state;
          pagination := pagination state; filters := filters state |},
       Returned ())
  | Rejected e => (set_failed e "Failed to delete job" state, Thrown e)
  end.

(** [jobs: state.jobs.map((j) => (j.id === id ? updated : j))] with loading
    off: the success branch of [retryJob] and [resumeJob]. *)
Definition replace_job (id0 : string) (updated : Job) (state : JobState) : JobState :=
  {| jobs := map (λ j, if String.eqb (id j) id0 then updated else j) (jobs state);
     selectedJob := selectedJob state;
     isLoading := false; error := error state;
     pagination := pagination state; filters := filters state |}.

(** [retryJob(id)] and [resumeJob(id)], after the await. *)
Definition retryJob_settle (id0 : string) (o : Outcome Job) (state : JobState)
  : JobState * Settled unit :=
  match o with
  | Resolved updated => (replace_job id0 updated state, Returned ())
  | Rejected e => (set_failed e "Failed to retry job" state, Thrown e)
  end.

Definition resumeJob_settle (id0 : string) (o : Outcome Job) (state : JobState)
  : JobState * Settled unit :=
  match o with
  | Resolved updated => (replace_job id0 updated state, Returned ())
  | Rejected e => (set_failed e "Failed to resume job" state, Thrown e)
  end.


(** The asynchronous actions, each with the way its requests end. *)
Inductive Action :=
| FetchJobs (o : Outcome JobPage)
| FetchJob (o : Outcome (Job * list JobLog))
| CreateJob (o : Outcome Job)
| CreateBulkJobs (o : Outcome BulkResult) (refresh : Outcome JobPage)
| DeleteJob (id0 : string) (o : Outcome unit)
| RetryJob (id0 : string) (o : Outcome Job)
| ResumeJob (id0 : string) (o : Outcome Job)
| StartProcessing (o : Outcome Queued) (refresh : Outcome JobPage).









(** The message each action gives to [getErrorMessage]. *)
Definition fallback (a : Action) : string :=
  match a with
  | FetchJobs _ => "Failed to fetch jobs"
  | FetchJob _ => "Failed to fetch job"
  | CreateJob _ => "Failed to create job"
  | CreateBulkJobs _ _ => "Failed to create jobs"
  | DeleteJob _ _ => "Failed to delete job"
  | RetryJob _ _ => "Failed to retry job"
  | ResumeJob _ _ => "Failed to resume job"
  | StartProcessing _ _ => "Failed to start processing"
  end.

End actions.

Arguments Resolved {Err A} a.
Arguments Rejected {Err A} e.
Arguments Returned {Err A} a.
Arguments Thrown {Err A} e.

(** Sample data: errors are their own message. *)
Definition message_of (e : string) (fallback : string) : string :=
  if String.eqb e "" then fallback else e.

End JobActions.

(** * Properties *)

(** ** JavaScript sets *)

Module JsSetFacts.
Section facts.
Context {A : Type} `{EqDecision A}.
Implicit Types (s l : list A) (k : A).

Lemma has_true k s : JsSet.has k s = true ↔ k ∈ s.
Proof. unfold JsSet.has. apply bool_decide_eq_true. Qed.

Lemma has_false k s : JsSet.has k s = false ↔ k ∉ s.
Proof. unfold JsSet.has. apply bool_decide_eq_false. Qed.

Lemma add_fresh k s : k ∉ s → JsSet.add k s = s ++ [k].
Proof. intros Hk. unfold JsSet.add. by rewrite (proj2 (has_false k s) Hk). Qed.

Lemma add_present k s : k ∈ s → JsSet.add k s = s.
Proof. intros Hk. unfold JsSet.add. by rewrite (proj2 (has_true k s) Hk). Qed.

Lemma add_NoDup k s : NoDup s → NoDup (JsSet.add k s).
Proof.
  intros Hs. destruct (decide (k ∈ s)) as [Hin|Hin].
  - by rewrite add_present.
  - rewrite add_fresh by done. apply NoDup_app. split_and!; [done| |apply NoDup_singleton].
    intros x Hx ->%list_elem_of_singleton. done.
Qed.

Lemma elem_of_add x k s : x ∈ JsSet.add k s ↔ x = k ∨ x ∈ s.
Proof.
  destruct (decide (k ∈ s)) as [Hin|Hin].
  - rewrite add_present by done. split; [by right|]. by intros [->|?].
  - rewrite add_fresh by done. rewrite elem_of_app, list_elem_of_singleton. tauto.
Qed.

Lemma delete_NoDup k s : NoDup s → NoDup (JsSet.delete k s).
Proof. apply NoDup_filter. Qed.

Lemma elem_of_delete x k s : x ∈ JsSet.delete k s ↔ x ≠ k ∧ x ∈ s.
Proof. unfold JsSet.delete. by rewrite list_elem_of_filter. Qed.

Lemma of_array_from acc l :
  NoDup (acc ++ l) → foldl (λ s k, JsSet.add k s) acc l = acc ++ l.
Proof.
  revert acc. induction l as [|x l IH]; intros acc Hnd; simpl.
  - by rewrite app_nil_r.
  - assert (x ∉ acc) as Hx.
    { apply NoDup_app in Hnd as (_ & Hd & _). intros Hin. apply (Hd x Hin). left. }
    rewrite add_fresh by done. rewrite IH; rewrite <- app_assoc; done.
Qed.

(** [new Set(arr)] of an array without repetitions is that array. *)
Lemma of_array_NoDup l : NoDup l → JsSet.of_array l = l.
Proof. intros Hl. unfold JsSet.of_array. by rewrite of_array_from. Qed.

Lemma slice_last_suffix n l : JsSet.slice_last n l `suffix_of` l.
Proof. apply suffix_drop. Qed.

Lemma slice_last_length n l : length (JsSet.slice_last n l) = min n (length l).
Proof. unfold JsSet.slice_last. rewrite length_drop. lia. Qed.

Lemma suffix_NoDup l1 l2 : l1 `suffix_of` l2 → NoDup l2 → NoDup l1.
Proof. intros [k ->] Hnd. by apply NoDup_app in Hnd as (_ & _ & ?). Qed.

(** Two suffixes of one list: the shorter is a suffix of the longer. *)
Lemma suffix_of_suffix l1 l2 l :
  l1 `suffix_of` l → l2 `suffix_of` l → length l1 ≤ length l2 → l1 `suffix_of` l2.
Proof.
  intros H1 H2 Hlen. destruct (suffix_weak_total _ _ _ H1 H2) as [|H21]; [done|].
  assert (length l2 ≤ length l1) by by apply suffix_length.
  destruct H21 as [k Hk]. assert (k = []) as ->.
  { apply (f_equal length) in Hk. rewrite length_app in Hk.
    destruct k; [done|]. simpl in Hk. lia. }
  simpl in Hk. by subst.
Qed.

Lemma slice_last_of_suffix n l1 l2 :
  l1 `suffix_of` l2 → n ≤ length l1 → JsSet.slice_last n l1 = JsSet.slice_last n l2.
Proof.
  intros [k ->] Hn. unfold JsSet.slice_last. rewrite length_app, drop_app.
  replace (length k + length l1 - n - length k) with (length l1 - n) by lia.
  rewrite (drop_ge k) by lia. done.
Qed.
End facts.
End JsSetFacts.

(** ** Notification poller *)

Module PollerFacts.
Import Poller JsSetFacts.

Lemma Inv_nil : Inv [] [].
Proof. split; simpl; [constructor|done|lia|lia]. Qed.

Lemma show_seen n s :
  notificationKey n ∈ s → showNotification n s = (s, [Check (notificationKey n)]).
Proof. intros Hin. unfold showNotification. by rewrite (proj2 (has_true _ _) Hin). Qed.

Lemma show_fresh n s :
  notificationKey n ∉ s → NoDup s →
  showNotification n s =
    (if decide (100 < length (s ++ [notificationKey n]))
     then JsSet.slice_last 50 (s ++ [notificationKey n])
     else s ++ [notificationKey n],
     [Check (notificationKey n); Insert (notificationKey n)] ++
     (if decide (100 < length (s ++ [notificationKey n])) then [Truncate] else []) ++
     match toast_of n with Some t => [Present n t] | None => [] end).
Proof.
  intros Hin Hnd. unfold showNotification. rewrite (proj2 (has_false _ _) Hin).
  rewrite add_fresh by done. unfold JsSet.size, JsSet.to_array.
  destruct (decide _) as [Hlt|Hlt]; [|done].
  rewrite of_array_NoDup; [done|].
  eapply suffix_NoDup; [apply slice_last_suffix|].
  apply NoDup_app; split_and!; [done| |apply NoDup_singleton].
  intros x Hx ->%list_elem_of_singleton. done.
Qed.

Lemma inserted_seen n s : notificationKey n ∈ s → inserted (showNotification n s).2 = [].
Proof. intros Hin. by rewrite show_seen. Qed.

Lemma inserted_fresh n s :
  notificationKey n ∉ s → NoDup s → inserted (showNotification n s).2 = [notificationKey n].
Proof.
  intros Hin Hnd. rewrite show_fresh by done. simpl.
  destruct (decide _); destruct (toast_of n); reflexivity.
Qed.

Lemma show_inv n s hist :
  Inv s hist → Inv (showNotification n s).1 (hist ++ inserted (showNotification n s).2).
Proof.
  intros [Hnd Hsuf Hle Hge]. destruct (decide (notificationKey n ∈ s)) as [Hin|Hin].
  - rewrite inserted_seen by done. rewrite show_seen by done. rewrite app_nil_r. by split.
  - rewrite inserted_fresh by done. rewrite show_fresh by done. simpl.
    set (k := notificationKey n) in *.
    assert (NoDup (s ++ [k])) as Hnd'.
    { apply NoDup_app; split_and!; [done| |apply NoDup_singleton].
      intros x Hx ->%list_elem_of_singleton. done. }
    assert (s ++ [k] `suffix_of` hist ++ [k]) as Hsuf' by by apply suffix_snoc.
    destruct (decide _) as [Hlt|Hlt].
    + split.
      * eapply suffix_NoDup; [apply slice_last_suffix|done].
      * etrans; [apply slice_last_suffix|done].
      * rewrite slice_last_length. lia.
      * rewrite slice_last_length. rewrite !length_app in *. cbn [length] in *. lia.
    + split; [done|done| |]; rewrite !length_app in *; cbn [length] in *; lia.
Qed.

Lemma run_show_inv ns s hist :
  Inv s hist → Inv (run_show ns s).1 (hist ++ inserted (run_show ns s).2).
Proof.
  revert s hist. induction ns as [|n ns IH]; intros s hist HI; simpl.
  - by rewrite app_nil_r.
  - pose proof (show_inv n _ _ HI) as H1.
    destruct (showNotification n s) as [s1 ops1]. simpl in H1.
    specialize (IH _ _ H1). destruct (run_show ns s1) as [s2 ops2]. simpl in *.
    unfold inserted in *. rewrite omap_app, app_assoc. done.
Qed.

(** When a call truncates, what stays is the last 50 of the history. *)
Lemma show_truncates n s hist :
  Inv s hist → Truncate ∈ (showNotification n s).2 →
  (showNotification n s).1 = JsSet.slice_last 50 (hist ++ inserted (showNotification n s).2)
  ∧ length (showNotification n s).1 = 50.
Proof.
  intros [Hnd Hsuf Hle Hge] Htr. destruct (decide (notificationKey n ∈ s)) as [Hin|Hin].
  - rewrite show_seen in Htr by done. simpl in Htr.
    apply list_elem_of_singleton in Htr. done.
  - rewrite inserted_fresh by done. rewrite show_fresh in * by done. simpl in *.
    destruct (decide _) as [Hlt|Hlt].
    + split.
      * apply slice_last_of_suffix; [by apply suffix_snoc|]. lia.
      * rewrite slice_last_length. lia.
    + exfalso. destruct (toast_of n); repeat (apply elem_of_cons in Htr as [Htr|Htr]; [done|]);
        by apply elem_of_nil in Htr.
Qed.

Lemma run_show_cons n ns s :
  run_show (n :: ns) s =
  ((run_show ns (showNotification n s).1).1,
   (showNotification n s).2 ++ (run_show ns (showNotification n s).1).2).
Proof.
  cbn [run_show]. destruct (showNotification n s) as [s1 ops1]. cbn [fst snd].
  by destruct (run_show ns s1) as [s2 ops2].
Qed.

Lemma poll_body_pass acc n :
  high_or_urgent n = true →
  poll_body acc n = ((showNotification n acc.1).1, acc.2 ++ (showNotification n acc.1).2).
Proof.
  unfold poll_body, high_or_urgent. intros ->. by destruct (showNotification n acc.1).
Qed.

Lemma poll_body_skip acc n : high_or_urgent n = false → poll_body acc n = acc.
Proof. unfold poll_body, high_or_urgent. by intros ->. Qed.

(** A tick is a run of [showNotification] over the notifications that pass
    the priority filter. *)
Lemma poll_loop ns s acc :
  foldl poll_body (s, acc) ns =
  ((run_show (filter high_or_urgent ns) s).1,
   acc ++ (run_show (filter high_or_urgent ns) s).2).
Proof.
  revert s acc. induction ns as [|n ns IH]; intros s acc; cbn [foldl].
  - simpl. by rewrite app_nil_r.
  - rewrite filter_cons. destruct (decide (high_or_urgent n)) as [E|E].
    + apply Is_true_true in E. rewrite poll_body_pass by done. rewrite IH.
      rewrite run_show_cons. cbn [fst snd]. by rewrite app_assoc.
    + apply Is_true_false in E. rewrite poll_body_skip by done. apply IH.
Qed.


Lemma run_show_app ns1 ns2 s :
  run_show (ns1 ++ ns2) s =
  ((run_show ns2 (run_show ns1 s).1).1,
   (run_show ns1 s).2 ++ (run_show ns2 (run_show ns1 s).1).2).
Proof.
  revert s. induction ns1 as [|n ns1 IH]; intros s; simpl.
  - by destruct (run_show ns2 s).
  - destruct (showNotification n s) as [s1 ops1]. rewrite IH.
    destruct (run_show ns1 s1) as [s2 ops2]. simpl.
    destruct (run_show ns2 s2) as [s3 ops3]. simpl. by rewrite app_assoc.
Qed.

Lemma poll_as_run_show resp r :
  shownNotificationsRef (pollNotifications resp r).1 =
    (run_show (filter high_or_urgent (default [] resp)) (shownNotificationsRef r)).1
  ∧ (pollNotifications resp r).2 =
    (run_show (filter high_or_urgent (default [] resp)) (shownNotificationsRef r)).2.
Proof.
  destruct resp as [[|n ns]|]; simpl; [done| |done].
  change (foldl poll_body (poll_body (shownNotificationsRef r, []) n) ns)
    with (foldl poll_body (shownNotificationsRef r, []) (n :: ns)).
  rewrite poll_loop. simpl. done.
Qed.

Lemma run_ticks_as_run_show ticks r :
  shownNotificationsRef (run_ticks ticks r).1 =
    (run_show (filter high_or_urgent (fetched ticks)) (shownNotificationsRef r)).1
  ∧ (run_ticks ticks r).2 =
    (run_show (filter high_or_urgent (fetched ticks)) (shownNotificationsRef r)).2.
Proof.
  revert r. induction ticks as [|resp ticks IH]; intros r; simpl; [done|].
  destruct (poll_as_run_show resp r) as [Hs Ho].
  destruct (pollNotifications resp r) as [r1 ops1]. simpl in *.
  destruct (IH r1) as [Hs' Ho']. destruct (run_ticks ticks r1) as [r2 ops2]. simpl in *.
  assert (filter high_or_urgent (fetched (resp :: ticks)) =
          filter high_or_urgent (default [] resp) ++ filter high_or_urgent (fetched ticks)) as ->.
  { unfold fetched. destruct resp; simpl; [by rewrite filter_app|done]. }
  rewrite run_show_app. simpl. rewrite <- Hs, <- Ho, <- Hs', <- Ho'. done.
Qed.

Lemma show_spaced n s hist :
  Inv s hist → spaced hist → spaced (hist ++ inserted (showNotification n s).2).
Proof.
  intros HI Hsp. destruct (decide (notificationKey n ∈ s)) as [Hin|Hin].
  - rewrite inserted_seen by done. by rewrite app_nil_r.
  - destruct HI as [Hnd Hsuf Hle Hge]. rewrite inserted_fresh by done.
    intros i j k Hij Hi Hj.
    assert (j < length (hist ++ [notificationKey n])) as Hjlt by (by eapply lookup_lt_Some).
    rewrite length_app in Hjlt. cbn [length] in Hjlt.
    destruct (decide (j < length hist)) as [Hj'|Hj'].
    + rewrite lookup_app_l in Hi by lia. rewrite lookup_app_l in Hj by lia. eauto.
    + assert (j = length hist) as -> by lia.
      rewrite lookup_app_l in Hi by lia.
      rewrite list_lookup_middle in Hj by done. injection Hj as <-.
      destruct (decide (i + 50 < length hist)) as [|Hnear]; [done|]. exfalso.
      destruct Hsuf as [p ->]. rewrite length_app in *.
      rewrite lookup_app_r in Hi by lia.
      apply Hin. eapply list_elem_of_lookup_2. exact Hi.
Qed.

Lemma run_show_spaced ns s hist :
  Inv s hist → spaced hist → spaced (hist ++ inserted (run_show ns s).2).
Proof.
  revert s hist. induction ns as [|n ns IH]; intros s hist HI Hsp.
  - simpl. by rewrite app_nil_r.
  - rewrite run_show_cons. cbn [snd]. unfold inserted at 1. rewrite omap_app, app_assoc.
    apply IH; [by apply show_inv|by apply show_spaced].
Qed.

Lemma high_or_urgent_toast n : high_or_urgent n = true → is_Some (toast_of n).
Proof.
  unfold high_or_urgent, toast_of. destruct (priority n); try done;
    repeat case_match; eauto.
Qed.

(** What passed the filter is presented exactly when it is inserted. *)
Lemma presented_keys ns s hist :
  Inv s hist → Forall (λ n, high_or_urgent n = true) ns →
  notificationKey <$> presented (run_show ns s).2 = inserted (run_show ns s).2.
Proof.
  revert s hist. induction ns as [|n ns IH]; intros s hist HI Hall; [done|].
  apply Forall_cons in Hall as [Hn Hall].
  rewrite run_show_cons. cbn [snd]. unfold presented, inserted.
  rewrite !omap_app, fmap_app. f_equal.
  - destruct (decide (notificationKey n ∈ s)) as [Hin|Hin].
    + by rewrite show_seen.
    + rewrite show_fresh by (done || apply HI).
      destruct (high_or_urgent_toast n Hn) as [t ->]. cbn [snd].
      by destruct (decide _).
  - eapply IH; [by apply show_inv|done].
Qed.

Lemma Forall_filter_true {A} (f : A → bool) (l : list A) :
  Forall (λ x, f x = true) (filter f l).
Proof.
  apply Forall_forall. intros x [Hx _]%list_elem_of_filter. by apply Is_true_true.
Qed.

Lemma triple_key n1 n2 : triple n1 = triple n2 → notificationKey n1 = notificationKey n2.
Proof.
  unfold triple, notificationKey, job_id_or_empty. intros [= -> -> ->]. done.
Qed.

(** C3: between calls of [showNotification] the seen-set holds at most 100
    keys, whatever was shown before and whatever the ticks fetched; and a
    call that truncates leaves exactly the 50 keys inserted last, in the
    order of their insertion. *)
Theorem seen_set_bounded_and_truncated_to_last_50
    (ns : list SystemNotification) (n : SystemNotification)
    (ticks : list (option (list SystemNotification))) :
  let before := run_show ns [] in
  let call := showNotification n before.1 in
  length before.1 ≤ 100 ∧
  length call.1 ≤ 100 ∧
  length (shownNotificationsRef (run_ticks ticks initial).1) ≤ 100 ∧
  (truncated call.2 = true →
     call.1 = JsSet.slice_last 50 (inserted (before.2 ++ call.2)) ∧ length call.1 = 50).
Proof.
  intros before call.
  pose proof (run_show_inv ns [] [] Inv_nil) as HI. rewrite app_nil_l in HI.
  fold before in HI.
  pose proof (show_inv n _ _ HI) as HI'. fold call in HI'.
  split_and!.
  - apply HI.
  - apply HI'.
  - destruct (run_ticks_as_run_show ticks initial) as [-> _].
    apply (run_show_inv _ [] [] Inv_nil).
  - intros Htr. unfold inserted. rewrite omap_app. apply show_truncates; [done|].
    unfold truncated in Htr. apply existsb_exists in Htr as (o & Ho & Hot).
    destruct o; try done. by apply list_elem_of_In.
Qed.

Lemma seen_set_bounded_and_truncated_to_last_50_witness :
  length (showNotification (sample 100) (run_show (samples 0 100) []).1).1 = 50.
Proof.
  apply (seen_set_bounded_and_truncated_to_last_50 (samples 0 100) (sample 100) []).
  vm_compute. reflexivity.
Defined.

(** C2, as stated: [alert_A] is presented, a hundred other alerts follow and
    push its key out of the seen-set, and the same [alert_A] is presented a
    second time. *)
Lemma two_alerts_for_one_triple :
  alerts_for (triple alert_A) (run_ticks eviction_ticks initial).2 = 2
  ∧ ¬ at_most_one_alert_per_triple.
Proof.
  assert (alerts_for (triple alert_A) (run_ticks eviction_ticks initial).2 = 2) as Htwo
    by (vm_compute; reflexivity).
  split; [exact Htwo|].
  intros Hclaim. specialize (Hclaim eviction_ticks (triple alert_A)). lia.
Qed.

(** C2, amended: from the start of the poller, two presented alerts whose
    notifications share (type, created_at, job_id) have at least 50 other
    presented alerts between them. *)
Theorem same_triple_alerts_are_50_apart
    (ticks : list (option (list SystemNotification)))
    (i j : nat) (n1 n2 : SystemNotification) :
  presented (run_ticks ticks initial).2 !! i = Some n1 →
  presented (run_ticks ticks initial).2 !! j = Some n2 →
  triple n1 = triple n2 →
  i < j →
  i + 50 < j.
Proof.
  destruct (run_ticks_as_run_show ticks initial) as [_ ->]. cbn [initial shownNotificationsRef].
  intros Hi Hj Hk Hij.
  pose proof (run_show_spaced (filter high_or_urgent (fetched ticks)) [] [] Inv_nil) as Hsp.
  rewrite app_nil_l in Hsp.
  rewrite <- (presented_keys _ [] [] Inv_nil (Forall_filter_true _ _)) in Hsp.
  apply (Hsp ltac:(intros ???; rewrite lookup_nil; done) i j (notificationKey n1)); [done| |].
  - by rewrite list_lookup_fmap, Hi.
  - rewrite list_lookup_fmap, Hj. simpl. by rewrite (triple_key _ _ Hk).
Qed.

Lemma same_triple_alerts_are_50_apart_witness : 0 + 50 < 101.
Proof.
  apply (same_triple_alerts_are_50_apart eviction_ticks 0 101 alert_A alert_A).
  - vm_compute. reflexivity.
  - vm_compute. reflexivity.
  - reflexivity.
  - lia.
Defined.

Lemma not_high_or_urgent n :
  priority n = normal ∨ priority n = low → high_or_urgent n = false.
Proof. unfold high_or_urgent. by intros [-> | ->]. Qed.

Lemma filter_filter_same {A} (f : A → bool) (l : list A) :
  filter f (filter f l) = filter f l.
Proof.
  induction l as [|x l IH]; [done|]. rewrite filter_cons.
  destruct (decide (f x)) as [Hx|Hx]; [|done].
  rewrite filter_cons, decide_True by done. by rewrite IH.
Qed.

Lemma fetched_Some ns ticks : fetched (Some ns :: ticks) = ns ++ fetched ticks.
Proof. done. Qed.

Lemma fetched_filtered ticks :
  filter high_or_urgent (fetched (fmap (M := option) (filter high_or_urgent) <$> ticks)) =
  filter high_or_urgent (fetched ticks).
Proof.
  induction ticks as [|[ns|] ticks IH]; [done| |done].
  rewrite fmap_cons. cbn [fmap option_fmap option_map]. rewrite !fetched_Some, !filter_app, IH.
  by rewrite filter_filter_same.
Qed.

Lemma presented_high_or_urgent ns s :
  Forall (λ n, high_or_urgent n = true) ns →
  Forall (λ n, high_or_urgent n = true) (presented (run_show ns s).2).
Proof.
  revert s. induction ns as [|n ns IH]; intros s Hall; [constructor|].
  apply Forall_cons in Hall as [Hn Hall]. rewrite run_show_cons. cbn [snd].
  unfold presented. rewrite omap_app. apply Forall_app. split; [|by apply IH].
  unfold showNotification.
  repeat case_match; simplify_eq; simpl;
    repeat (apply Forall_cons; split; [done|]); apply Forall_nil_2.
Qed.

(** C6: the loop of a tick passes over a notification of priority [normal] or
    [low] without a call of [showNotification]: seen-set and observations
    stay as they are, so there is no check, no insertion and no alert for
    it. Every alert of a run of ticks is for a [high] or [urgent]
    notification, and the run checks, inserts and presents what it would
    with the [normal] and [low] notifications taken out of the responses.
    A tick that fetches a [high]/[error] notification not seen before and a
    [normal]/[info] one checks, inserts and presents the first only, as an
    error toast. *)
Theorem normal_and_low_bypass_seen_set_and_alerts :
  (∀ n acc, priority n = normal ∨ priority n = low → poll_body acc n = acc) ∧
  (∀ ticks r n, n ∈ presented (run_ticks ticks r).2 →
     priority n = high ∨ priority n = urgent) ∧
  (∀ ticks r,
     let kept := fmap (M := option) (filter high_or_urgent) <$> ticks in
     (run_ticks ticks r).2 = (run_ticks kept r).2 ∧
     shownNotificationsRef (run_ticks ticks r).1 = shownNotificationsRef (run_ticks kept r).1) ∧
  (∀ n1 n2 r,
     priority n1 = high → type n1 = "error" →
     priority n2 = normal → type n2 = "info" →
     NoDup (shownNotificationsRef r) →
     notificationKey n1 ∉ shownNotificationsRef r →
     let ops := (pollNotifications (Some [n1; n2]) r).2 in
     checked ops = [notificationKey n1] ∧
     inserted ops = [notificationKey n1] ∧
     presented ops = [n1] ∧
     toasts ops =
       [{| fn := toast_error; text := title n1 +:+ ": " +:+ message n1;
           duration := 8000%Z; icon := None; background := "#1e1e2e";
           color := "#f38ba8"; border := "1px solid #f38ba8" |}]).
Proof.
  split_and!.
  - intros n acc Hp. by apply poll_body_skip, not_high_or_urgent.
  - intros ticks r n Hn. destruct (run_ticks_as_run_show ticks r) as [_ Ho].
    rewrite Ho in Hn.
    pose proof (presented_high_or_urgent _ (shownNotificationsRef r)
                  (Forall_filter_true high_or_urgent (fetched ticks))) as Hall.
    rewrite Forall_forall in Hall. specialize (Hall n Hn).
    unfold high_or_urgent in Hall. apply orb_true_iff in Hall.
    destruct Hall as [H|H]; apply bool_decide_eq_true in H; auto.
  - intros ticks r kept.
    destruct (run_ticks_as_run_show ticks r) as [-> ->].
    destruct (run_ticks_as_run_show kept r) as [-> ->].
    unfold kept. by rewrite fetched_filtered.
  - intros n1 n2 r Hp1 Ht1 Hp2 Ht2 Hnd Hfresh ops. unfold ops.
    destruct (poll_as_run_show (Some [n1; n2]) r) as [_ ->].
    change (default [] (Some [n1; n2])) with [n1; n2].
    assert (high_or_urgent n1 = true) as H1 by (unfold high_or_urgent; by rewrite Hp1).
    assert (high_or_urgent n2 = false) as H2 by (unfold high_or_urgent; by rewrite Hp2).
    rewrite filter_cons, decide_True by (by apply Is_true_true).
    rewrite filter_cons, decide_False by (by apply Is_true_false). rewrite filter_nil.
    rewrite run_show_cons. cbn [run_show snd]. rewrite app_nil_r.
    rewrite show_fresh by done. cbn [snd].
    unfold toast_of. rewrite Hp1, Ht1. cbn [String.eqb Ascii.eqb Bool.eqb orb].
    by destruct (decide _).
Qed.

Lemma normal_and_low_bypass_seen_set_and_alerts_witness :
  poll_body ([], []) info_B = ([], []) ∧
  presented (pollNotifications (Some [alert_A; info_B]) initial).2 = [alert_A].
Proof.
  destruct normal_and_low_bypass_seen_set_and_alerts as (Hskip & _ & _ & Hscen). split.
  - apply Hskip. left. reflexivity.
  - apply (Hscen alert_A info_B initial); try reflexivity.
    + constructor.
    + apply not_elem_of_nil.
Defined.

(** An absent job and an empty one give the same key. *)
Lemma key_ignores_empty_job n1 n2 :
  type n1 = type n2 → created_at n1 = created_at n2 →
  job_id n1 = None → job_id n2 = Some "" →
  notificationKey n1 = notificationKey n2.
Proof.
  unfold notificationKey, job_id_or_empty. by intros -> -> -> ->.
Qed.

(** C10: the dedup key is not injective on (type, created_at, job_id). A
    notification without job and one with the empty job, same type and
    timestamp, have one key; so have two whose types and timestamps differ
    by where a ['-'] stands. In both cases the second notification, fetched
    after the first was shown, is checked and not presented. *)
Theorem dedup_key_not_injective :
  (∃ n1 n2,
     type n1 = type n2 ∧ created_at n1 = created_at n2 ∧
     job_id n1 = None ∧ job_id n2 = Some "" ∧
     triple n1 ≠ triple n2 ∧ notificationKey n1 = notificationKey n2 ∧
     high_or_urgent n1 = true ∧ high_or_urgent n2 = true ∧
     presented (run_ticks [Some [n1]; Some [n2]] initial).2 = [n1] ∧
     checked (run_ticks [Some [n1]; Some [n2]] initial).2 =
       [notificationKey n1; notificationKey n2]) ∧
  (∃ n1 n2,
     type n1 ≠ type n2 ∧ created_at n1 ≠ created_at n2 ∧ job_id n1 = job_id n2 ∧
     triple n1 ≠ triple n2 ∧ notificationKey n1 = notificationKey n2 ∧
     high_or_urgent n1 = true ∧ high_or_urgent n2 = true ∧
     presented (run_ticks [Some [n1; n2]] initial).2 = [n1]).
Proof.
  split.
  - exists no_job, empty_job. split_and!; reflexivity || discriminate.
  - exists dash_in_type, dash_in_stamp. split_and!; reflexivity || discriminate.
Qed.
End PollerFacts.

(** ** Transport client *)

Module SocketFacts.
Import Socket JsSetFacts.

Lemma invoke_dispatch_only d (l : list nat) :
  Forall dispatch_only (map (λ handler, Invoke handler d) l).
Proof. induction l; constructor; done. Qed.

Lemma emit_dispatch_only hs type d : Forall dispatch_only (emit hs type d).
Proof.
  unfold emit. constructor; [done|]. apply Forall_app. split.
  - apply invoke_dispatch_only.
  - destruct (decide _); [apply invoke_dispatch_only|constructor].
Qed.

Lemma filter_dispatch_only (P : Obs → bool) out :
  (∀ o, dispatch_only o → P o = false) → Forall dispatch_only out → filter P out = [].
Proof.
  intros HP. induction 1 as [|o out Ho _ IH]; [done|].
  rewrite filter_cons, decide_False; [exact IH|]. rewrite (HP o Ho). exact id.
Qed.

Lemma emit_schedules_nothing hs type d : scheduled_by (emit hs type d) = 0.
Proof.
  unfold scheduled_by. rewrite (filter_dispatch_only is_SetTimeout); [done| |apply emit_dispatch_only].
  by intros [].
Qed.

Lemma emit_opens_nothing hs type d : opened_by (emit hs type d) = 0.
Proof.
  unfold opened_by. rewrite (filter_dispatch_only is_NewWebSocket); [done| |apply emit_dispatch_only].
  by intros [].
Qed.

Lemma emit_sends_nothing hs type d : filter is_WsSend (emit hs type d) = [].
Proof. apply filter_dispatch_only; [by intros []|apply emit_dispatch_only]. Qed.

Lemma scheduled_by_app o1 o2 : scheduled_by (o1 ++ o2) = scheduled_by o1 + scheduled_by o2.
Proof. unfold scheduled_by. by rewrite filter_app, length_app. Qed.

Lemma scheduled_by_cons o out :
  scheduled_by (o :: out) = (if is_SetTimeout o then 1 else 0) + scheduled_by out.
Proof. unfold scheduled_by. rewrite filter_cons. by destruct (is_SetTimeout o). Qed.

(** [connect] neither touches the counter nor schedules. *)
Lemma connect_attempts w :
  reconnectAttempts (svc (connect w).1) = reconnectAttempts (svc w)
  ∧ scheduled_by (connect w).2 = 0.
Proof. unfold connect. by destruct (_ || _). Qed.

Lemma onclose_attempts w :
  reconnectAttempts (svc (onclose w).1) = reconnectAttempts (svc w) + scheduled_by (onclose w).2
  ∧ scheduled_by (onclose w).2 =
      if decide (reconnectAttempts (svc w) < maxReconnectAttempts) then 1 else 0.
Proof.
  unfold onclose. destruct (decide _); cbn [fst snd svc reconnectAttempts set_svc].
  - rewrite scheduled_by_app, !scheduled_by_cons, emit_schedules_nothing.
    change (scheduled_by []) with 0. simpl. lia.
  - rewrite scheduled_by_cons, emit_schedules_nothing. simpl. lia.
Qed.

Lemma invoke_schedules_nothing d (l : list nat) :
  scheduled_by (map (λ handler, Invoke handler d) l) = 0.
Proof.
  unfold scheduled_by. rewrite (filter_dispatch_only is_SetTimeout); [done|by intros []|].
  apply invoke_dispatch_only.
Qed.

Lemma onmessage_quiet parsed w :
  (onmessage parsed w).1 = w ∧ scheduled_by (onmessage parsed w).2 = 0.
Proof.
  unfold onmessage.
  repeat case_match; cbn [fst snd]; (split; [done|]);
    first [apply emit_schedules_nothing | apply invoke_schedules_nothing | done].
Qed.

(** The counter, over one event that is no [open]: it grows by what the event
    schedules, and only a [close] below the maximum schedules. *)
Lemma step_attempts e w w' out :
  step e w = Some (w', out) → is_EvOpen e = false →
  reconnectAttempts (svc w') = reconnectAttempts (svc w) + scheduled_by out
  ∧ scheduled_by out =
      if is_EvClose e
      then (if decide (reconnectAttempts (svc w) < maxReconnectAttempts) then 1 else 0)
      else 0.
Proof.
  intros Hstep Hopen. destruct e; try done; cbn [step is_EvClose] in *.
  - step_inv Hstep.
    destruct (connect_attempts w) as [-> ->]. lia.
  - step_inv Hstep.
    unfold disconnect. by destruct (ws (svc w)).
  - step_inv Hstep.
    unfold send. by repeat case_match.
  - by injection Hstep as <- <-.
  - by injection Hstep as <- <-.
  - destruct (timers w) as [|n]; [done|]. step_inv Hstep.
    match goal with |- context [connect ?x] => destruct (connect_attempts x) as [-> ->] end.
    simpl. lia.
  - destruct (sockets w !! id) as [[]|] eqn:E; try done; step_inv Hstep;
      match goal with |- context [onclose ?x] => destruct (onclose_attempts x) as [H1 H2] end;
      rewrite H1, H2; done.
  - destruct (sockets w !! id) as [[]|] eqn:E; try done; step_inv Hstep; unfold onerror; cbn [fst snd];
      rewrite scheduled_by_cons, emit_schedules_nothing; simpl; lia.
  - destruct (sockets w !! id) as [[]|] eqn:E; try done. step_inv Hstep.
    destruct (onmessage_quiet parsed w) as [-> ->]. lia.
Qed.

Lemma exec_cons_inv e evs w w' tr :
  exec (e :: evs) w = Some (w', tr) →
  ∃ w1 out tr1, step e w = Some (w1, out) ∧ exec evs w1 = Some (w', tr1) ∧ tr = (e, out) :: tr1.
Proof.
  cbn [exec]. destruct (step e w) as [[w1 out]|]; [|done].
  destruct (exec evs w1) as [[w2 tr1]|] eqn:E; [|done].
  intros [= <- <-]. by exists w1, out, tr1.
Qed.

Lemma scheduled_cons e out tr : scheduled ((e, out) :: tr) = scheduled_by out + scheduled tr.
Proof. done. Qed.

Lemma scheduled_per_close_cons e out tr :
  scheduled_per_close ((e, out) :: tr) =
  if is_EvClose e then scheduled_by out :: scheduled_per_close tr else scheduled_per_close tr.
Proof.
  unfold scheduled_per_close. rewrite filter_cons. cbn [fst].
  by destruct (is_EvClose e).
Qed.

Lemma closes_cons e evs :
  length (filter is_EvClose (e :: evs)) =
  if is_EvClose e then S (length (filter is_EvClose evs)) else length (filter is_EvClose evs).
Proof. rewrite filter_cons. by destruct (is_EvClose e). Qed.

(** A run without [open]: the counter grows by what the run schedules and
    stays below the maximum (or where it was), and the close events schedule
    as [expected]. *)
Lemma exec_counter evs w w' tr :
  exec evs w = Some (w', tr) →
  Forall (λ e, is_EvOpen e = false) evs →
  reconnectAttempts (svc w') = reconnectAttempts (svc w) + scheduled tr
  ∧ reconnectAttempts (svc w') ≤ maxReconnectAttempts `max` reconnectAttempts (svc w)
  ∧ scheduled_per_close tr =
      expected (reconnectAttempts (svc w)) (length (filter is_EvClose evs))
  ∧ scheduled tr = sum_list (scheduled_per_close tr).
Proof.
  revert w tr. induction evs as [|e evs IH]; intros w tr Hex Hno.
  - injection Hex as <- <-. unfold maxReconnectAttempts. split_and!; [done|lia|done|done].
  - apply Forall_cons in Hno as [He Hno].
    apply exec_cons_inv in Hex as (w1 & out & tr1 & Hstep & Hex & ->).
    destruct (step_attempts _ _ _ _ Hstep He) as [Hc Hs].
    destruct (IH _ _ Hex Hno) as (IH1 & IH2 & IH3 & IH4).
    rewrite scheduled_cons, scheduled_per_close_cons, closes_cons.
    rewrite Hc in IH1, IH2, IH3. rewrite Hs in *. clear Hs Hc.
    unfold maxReconnectAttempts in *.
    destruct (is_EvClose e) eqn:Hclose; cbn [expected].
    + unfold maxReconnectAttempts in *.
      destruct (decide (reconnectAttempts (svc w) < 5)) as [Hlt|Hge].
      * rewrite Nat.add_1_r in IH3. rewrite <- IH3.
        split_and!; [lia|lia|done|simpl; lia].
      * rewrite Nat.add_0_r in IH3. rewrite <- IH3.
        split_and!; [lia|lia|done|simpl; lia].
    + rewrite Nat.add_0_r in IH3. split_and!; [lia|lia|done|simpl; lia].
Qed.

(** C4: in a run with no successful open and no external [connect()] at most
    5 reconnects are scheduled, whatever state it starts in. From a counter
    of zero, six close events in such a run schedule one reconnect each for
    the first five and none for the sixth, five in all. The counter goes back
    to zero on a successful open, and on nothing else. *)
Theorem at_most_five_reconnects_until_open :
  (∀ evs w w' tr,
     exec evs w = Some (w', tr) →
     Forall (λ e, is_EvOpen e = false) evs →
     Forall (λ e, is_CallConnect e = false) evs →
     scheduled tr ≤ maxReconnectAttempts) ∧
  (∀ evs w w' tr,
     exec evs w = Some (w', tr) →
     Forall (λ e, is_EvOpen e = false) evs →
     reconnectAttempts (svc w) = 0 →
     length (filter is_EvClose evs) = 6 →
     scheduled_per_close tr = [1; 1; 1; 1; 1; 0] ∧ scheduled tr = 5) ∧
  (∀ e w w' out,
     step e w = Some (w', out) →
     reconnectAttempts (svc w) ≠ 0 → reconnectAttempts (svc w') = 0 →
     is_EvOpen e = true) ∧
  (∀ id w w' out,
     step (EvOpen id) w = Some (w', out) → reconnectAttempts (svc w') = 0).
Proof.
  split_and!.
  - intros evs w w' tr Hex Hno _.
    destruct (exec_counter _ _ _ _ Hex Hno) as (H1 & H2 & _).
    unfold maxReconnectAttempts in *. lia.
  - intros evs w w' tr Hex Hno H0 H6.
    destruct (exec_counter _ _ _ _ Hex Hno) as (H1 & H2 & H3 & H4).
    rewrite H0, H6 in H3. split; [exact H3|]. by rewrite H4, H3.
  - intros e w w' out Hstep Hnz Hz.
    destruct (is_EvOpen e) eqn:He; [done|].
    destruct (step_attempts _ _ _ _ Hstep He) as [Hc _]. lia.
  - intros id w w' out Hstep. cbn [step] in Hstep.
    destruct (sockets w !! id) as [[]|]; try done. by step_inv Hstep.
Qed.

Lemma at_most_five_reconnects_until_open_witness :
  scheduled_per_close (default [] (snd <$> exec six_closes (after [CallConnect] w0)))
    = [1; 1; 1; 1; 1; 0]
  ∧ scheduled (default [] (snd <$> exec six_closes (after [CallConnect] w0))) ≤ 5
  ∧ is_EvOpen (EvOpen 1) = true.
Proof.
  destruct at_most_five_reconnects_until_open as (Hcap & Hsix & Hreset & _).
  pose (w1 := after [CallConnect] w0).
  pose (w2 := after [EvClose 0] w1).
  assert (∃ w' tr, exec six_closes w1 = Some (w', tr)) as (w' & tr & Hex).
  { vm_compute. by eexists _, _. }
  fold w1. rewrite Hex. cbn [fmap option_fmap option_map default snd].
  assert (Forall (λ e, is_EvOpen e = false) six_closes) as Hno
    by (repeat constructor).
  assert (Forall (λ e, is_CallConnect e = false) six_closes) as Hnc
    by (repeat constructor).
  split_and!.
  - apply (Hsix six_closes w1 w' tr Hex Hno); reflexivity.
  - apply (Hcap six_closes w1 w' tr Hex Hno Hnc).
  - apply (Hreset (EvOpen 1) (after [EvTimer] w2)
             (after [EvOpen 1] (after [EvTimer] w2))
             (default [] (snd <$> step (EvOpen 1) (after [EvTimer] w2))));
      vm_compute; done.
Defined.

Lemma opened_by_cons o out :
  opened_by (o :: out) = (if is_NewWebSocket o then 1 else 0) + opened_by out.
Proof. unfold opened_by. rewrite filter_cons. by destruct (is_NewWebSocket o). Qed.

Lemma isConnected_no_ws w : ws (svc w) = None → isConnected w = false.
Proof. unfold isConnected. by intros ->. Qed.

(** C1, as stated: the service connects and the socket opens; [disconnect()]
    is called; the close event of that socket schedules a reconnect, and the
    timer opens a second socket, with no external [connect()]. Likewise a
    timer that is pending when [disconnect()] is called still fires. *)
Lemma reconnect_after_disconnect :
  activity <$> (snd <$> exec [CallDisconnect; EvClose 0; EvTimer]
                             (after [CallConnect; EvOpen 0] w0))
    = Some [(0, 0); (1, 0); (0, 1)]
  ∧ activity <$> (snd <$> exec [CallDisconnect; EvTimer]
                               (after [CallConnect; EvClose 0] w0))
    = Some [(0, 0); (0, 1)]
  ∧ ¬ disconnect_suppresses_reconnect.
Proof.
  split_and!; [vm_compute; reflexivity..|].
  intros Hclaim.
  assert (∃ w tr0, exec [CallConnect; EvOpen 0] w0 = Some (w, tr0)) as (w & tr0 & H0).
  { vm_compute. by eexists _, _. }
  assert (∃ w' tr, exec [CallDisconnect; EvClose 0; EvTimer] w = Some (w', tr)
                   ∧ activity tr = [(0, 0); (1, 0); (0, 1)]) as (w' & tr & H1 & Hact).
  { vm_compute in H0. injection H0 as <- _. vm_compute. by eexists _, _. }
  specialize (Hclaim _ _ _ _ _ _ _ _ H0 H1 ltac:(repeat constructor)).
  rewrite Hact in Hclaim. apply Forall_cons in Hclaim as [_ Hclaim].
  apply Forall_cons in Hclaim as [Hbad _]. discriminate.
Qed.

(** C1, amended: [disconnect()] closes the active connection, when there is
    one, and clears the reference to it, so that the service is not connected
    afterwards. It leaves the pending reconnect timers, the attempt counter
    and the closed socket's handlers as they are: the close event of that
    socket reports ['disconnected'] and, with the counter below the maximum,
    schedules a reconnect; and a pending timer still runs [connect()], which
    opens a new socket unless a connection attempt is under way. *)
Theorem disconnect_closes_without_suppressing_reconnect (w : World) :
  let w' := (disconnect w).1 in
  ws (svc w') = None ∧
  isConnected w' = false ∧
  timers w' = timers w ∧
  reconnectAttempts (svc w') = reconnectAttempts (svc w) ∧
  (ws (svc w) = None → disconnect w = (w, [])) ∧
  (∀ id, ws (svc w) = Some id →
     (disconnect w).2 = [WsClose id] ∧
     sockets w' = alter close_socket id (sockets w)) ∧
  (∀ id st, ws (svc w) = Some id → sockets w !! id = Some st → st ≠ CLOSED →
     reconnectAttempts (svc w) < maxReconnectAttempts →
     ∃ w'' out, step (EvClose id) w' = Some (w'', out) ∧
       Emit "disconnected" ∈ out ∧ scheduled_by out = 1 ∧
       timers w'' = S (timers w)) ∧
  (0 < timers w → isConnecting (svc w) = false →
     ∃ w'' out, step EvTimer w' = Some (w'', out) ∧ opened_by out = 1).
Proof.
  intros w'. unfold w', disconnect.
  destruct (ws (svc w)) as [id0|] eqn:Hws; cbn [fst snd svc ws timers reconnectAttempts sockets].
  - split_and!; try done.
    + intros id [= <-]. done.
    + intros id st [= <-] Hst Hne Hlt. cbn [step sockets].
      rewrite list_lookup_alter, Hst. cbn [fmap option_fmap option_map].
      assert (close_socket st ≠ CLOSED) as Hst' by (by destruct st).
      set (st' := close_socket st) in *. clearbody st'.
      match goal with |- context [onclose ?x] =>
        pose proof (onclose_attempts x) as [_ Hsch]; set (w1 := x) in * end.
      rewrite decide_True in Hsch by done.
      exists (onclose w1).1, (onclose w1).2. split_and!.
      * rewrite decide_True by done. by destruct st'; try done; destruct (onclose w1).
      * unfold onclose. destruct (decide _); cbn [snd]; set_solver.
      * done.
      * unfold onclose. rewrite decide_True by done. done.
    + intros Hpos Hconn. cbn [step timers]. destruct (timers w) as [|n]; [lia|].
      match goal with |- context [connect ?x] =>
        exists (connect x).1, (connect x).2; split; [by destruct (connect x)|] end.
      unfold connect, isConnected. cbn [svc ws isConnecting]. rewrite Hconn.
      cbn [orb snd]. rewrite !opened_by_cons. done.
  - rewrite (isConnected_no_ws w Hws). split_and!; try done.
    intros Hpos Hconn. cbn [step]. destruct (timers w) as [|n]; [lia|].
    match goal with |- context [connect ?x] =>
      exists (connect x).1, (connect x).2; split; [by destruct (connect x)|] end.
    unfold connect, isConnected. cbn [svc ws isConnecting]. rewrite Hws, Hconn.
    cbn [orb snd]. rewrite !opened_by_cons. done.
Qed.

Lemma disconnect_closes_without_suppressing_reconnect_witness :
  (∃ w'' out,
     step (EvClose 0) (disconnect (after [CallConnect; EvOpen 0] w0)).1 = Some (w'', out) ∧
     Emit "disconnected" ∈ out ∧ scheduled_by out = 1 ∧ timers w'' = 1)
  ∧ (∃ w'' out,
     step EvTimer (disconnect (after [CallConnect; EvClose 0] w0)).1 = Some (w'', out) ∧
     opened_by out = 1)
  ∧ disconnect w0 = (w0, []).
Proof.
  split_and!.
  - apply (disconnect_closes_without_suppressing_reconnect
             (after [CallConnect; EvOpen 0] w0)) with (st := OPEN);
      [reflexivity|reflexivity|discriminate|vm_compute; lia].
  - apply (disconnect_closes_without_suppressing_reconnect
             (after [CallConnect; EvClose 0] w0)); [vm_compute; lia|reflexivity].
  - apply (disconnect_closes_without_suppressing_reconnect w0). reflexivity.
Defined.

(** C5: the run [two_links]. The application connects, the socket opens,
    [disconnect()] and [connect()] follow; the close event of the first
    socket clears the reference to the second and schedules a reconnect; the
    second socket opens, the timer creates a third, and it opens too. The
    service reports ['connected'] twice in a row and two sockets are open.
    Without the timer: the second socket may open before the first reports
    its close. *)
Lemma connected_twice_without_disconnected :
  (λ r, (link_events r.2, sockets r.1)) <$> exec two_links w0
    = Some (["connected"; "disconnected"; "connected"; "connected"], [CLOSED; OPEN; OPEN])
  ∧ no_double_connected ["connected"; "disconnected"; "connected"; "connected"] = false
  ∧ (λ r, link_events r.2) <$>
      exec [CallConnect; EvOpen 0; CallDisconnect; CallConnect; EvOpen 1] w0
    = Some ["connected"; "connected"].
Proof. split_and!; vm_compute; reflexivity. Qed.

(** *** Without [disconnect()] *)

Lemma links_app o1 o2 : links (o1 ++ o2) = links o1 ++ links o2.
Proof. apply omap_app. Qed.

Lemma links_cons o out : links (o :: out) = links [o] ++ links out.
Proof. apply (links_app [o] out). Qed.

Lemma links_invoke d (l : list nat) : links (map (λ handler, Invoke handler d) l) = [].
Proof. by induction l. Qed.

Lemma links_emit hs type d :
  links (emit hs type d) =
  if String.eqb type "connected" || String.eqb type "disconnected" then [type] else [].
Proof.
  unfold emit. rewrite links_cons, links_app, links_invoke.
  destruct (decide _); rewrite ?links_invoke; cbn [links omap list_omap];
    destruct (_ || _); done.
Qed.

Lemma links_connect w : links (connect w).2 = [].
Proof. unfold connect. by destruct (_ || _). Qed.

Lemma connect_linked w b : Linked w b → Linked (connect w).1 b.
Proof.
  intros [Hoth Hws Hnone]. unfold connect.
  destruct (isConnected w || isConnecting (svc w)) eqn:Hguard; cbn [fst]; [by split|].
  apply orb_false_iff in Hguard as [Hconn Hing].
  assert (ws (svc w) = None) as Hno.
  { destruct (ws (svc w)) as [i|] eqn:E; [|done]. exfalso.
    destruct (Hws i eq_refl) as [(_ & Hc & _)|(Hopen & _ & _)]; [congruence|].
    unfold isConnected in Hconn. rewrite E in Hconn.
    by apply bool_decide_eq_false in Hconn. }
  destruct (Hnone Hno) as [_ ->].
  split; cbn [svc ws sockets isConnecting].
  - intros i st Hi Hst. apply lookup_app_Some in Hi as [Hi|[Hge Hi]].
    + specialize (Hoth i st Hi Hst). congruence.
    + apply list_lookup_singleton_Some in Hi as [Hi _]. f_equal. lia.
  - intros i [= <-]. left. split_and!; [|done..].
    by rewrite lookup_app_r, Nat.sub_diag.
  - done.
Qed.

(** One event on a service that agrees with its sockets: it reports nothing,
    or ['connected'] when ['connected'] was not reported last, or
    ['disconnected']; and service and sockets agree again. *)
Lemma step_linked e w w' out b :
  Linked w b → step e w = Some (w', out) → plain_event e = true →
  (links out = [] ∧ Linked w' b)
  ∨ (links out = ["connected"] ∧ b = false ∧ Linked w' true)
  ∨ (links out = ["disconnected"] ∧ Linked w' false).
Proof.
  intros HL Hstep Hplain. destruct e; try done; cbn [step] in Hstep.
  - step_inv Hstep. left. split; [apply links_connect|by apply connect_linked].
  - step_inv Hstep. left. unfold send. by repeat case_match.
  - step_inv Hstep. left. split; [done|]. by destruct HL.
  - step_inv Hstep. left. split; [done|]. by destruct HL.
  - destruct (timers w) as [|n] eqn:Ht; [done|]. step_inv Hstep. left.
    split; [apply links_connect|]. apply connect_linked. by destruct HL.
  - destruct (sockets w !! id) as [st|] eqn:E; [|done].
    destruct st; try done. step_inv Hstep. right. left.
    destruct HL as [Hoth Hws Hnone].
    assert (ws (svc w) = Some id) as Hid by (by eapply Hoth).
    destruct (Hws id Hid) as [(_ & _ & ->)|(Hopen & _ & _)]; [|congruence].
    split_and!; [|done|].
    + unfold onopen. cbn [snd]. by rewrite links_cons, links_emit.
    + unfold onopen, set_socket, set_svc. split; cbn [fst svc ws sockets isConnecting].
      * intros i st Hi Hst. destruct (decide (i = id)) as [->|Hne]; [done|].
        rewrite list_lookup_insert_ne in Hi by done. eauto.
      * intros i Hi. right. rewrite Hid in Hi. injection Hi as <-.
        split_and!; [|done..]. apply list_lookup_insert_eq. by eapply lookup_lt_Some.
      * intros Hn. congruence.
  - destruct (sockets w !! id) as [st|] eqn:E; [|done].
    assert (st ≠ CLOSED → ∃ x, Some x = Some (onclose (set_socket id CLOSED w)) ∧
                              step (EvClose id) w = Some x) as Hx.
    { intros Hst. eexists. split; [reflexivity|]. cbn [step]. rewrite E. by destruct st. }
    destruct (decide (st = CLOSED)) as [->|Hst]; [done|].
    assert (Some (w', out) = Some (onclose (set_socket id CLOSED w))) as Hstep'
      by (by destruct st).
    clear Hstep Hx. symmetry in Hstep'. step_inv Hstep'. right. right.
    destruct HL as [Hoth Hws Hnone].
    assert (ws (svc w) = Some id) as Hid by (by eapply Hoth).
    split.
    + unfold onclose. destruct (decide _); cbn [snd];
        rewrite ?links_app, links_cons, links_emit; done.
    + assert (∀ i st', <[id:=CLOSED]> (sockets w) !! i = Some st' → st' ≠ CLOSED → False)
        as Hall.
      { intros i st' Hi Hst'. destruct (decide (i = id)) as [->|Hne].
        - apply list_lookup_insert_Some in Hi as [(_ & ? & _)|(? & _)]; congruence.
        - rewrite list_lookup_insert_ne in Hi by done.
          specialize (Hoth i st' Hi Hst'). congruence. }
      unfold onclose, set_socket, set_svc.
      destruct (decide _); split; cbn [fst svc ws sockets isConnecting];
        try done; intros i st' Hi Hst'; exfalso; eauto.
  - destruct (sockets w !! id) as [[]|]; try done; step_inv Hstep; left;
      (split; [|done]); unfold onerror; cbn [snd]; by rewrite links_cons, links_emit.
  - destruct (sockets w !! id) as [[]|]; try done. step_inv Hstep. left.
    rewrite (proj1 (onmessage_quiet parsed w)). split; [|done].
    unfold onmessage. cbn [plain_event] in Hplain.
    repeat case_match; subst; cbn [snd]; rewrite ?links_emit, ?links_invoke; try done.
    all: cbn [negb orb] in Hplain.
    all: try (apply negb_true_iff, orb_false_iff in Hplain as [H1 H2];
              apply bool_decide_eq_false in H1; apply bool_decide_eq_false in H2).
    all: destruct (String.eqb_spec s "connected") as [->|?]; [done|].
    all: destruct (String.eqb_spec s "disconnected") as [->|?]; [done|].
    all: done.
Qed.

Lemma exec_linked evs w w' tr b :
  Linked w b → exec evs w = Some (w', tr) →
  Forall (λ e, plain_event e = true) evs →
  no_double_connected_from b (link_events tr) = true.
Proof.
  revert w tr b. induction evs as [|e evs IH]; intros w tr b HL Hex Hall.
  - by injection Hex as _ <-.
  - apply Forall_cons in Hall as [He Hall].
    apply exec_cons_inv in Hex as (w1 & out & tr1 & Hstep & Hex & ->).
    unfold link_events. cbn [map concat snd]. rewrite links_app.
    fold (link_events tr1).
    destruct (step_linked _ _ _ _ _ HL Hstep He)
      as [[-> HL1]|[(-> & -> & HL1)|[-> HL1]]]; cbn [app no_double_connected_from String.eqb Ascii.eqb Bool.eqb negb andb]; eauto.
Qed.

(** As long as [disconnect()] is not called, and the server sends no frame
    of the local types, ['connected'] is not reported twice in a row. *)
Lemma connected_alternates_without_disconnect protocol host evs w tr :
  exec evs (initial protocol host) = Some (w, tr) →
  Forall (λ e, plain_event e = true) evs →
  no_double_connected (link_events tr) = true.
Proof.
  intros Hex Hall. eapply exec_linked; [|done..].
  split; cbn [initial svc ws sockets isConnecting]; [|done..].
  intros i st Hi. by rewrite lookup_nil in Hi.
Qed.

(** *** Sending *)

Lemma frame_of_lookup type payload k :
  frame_of type payload !! k =
  match payload !! k with
  | Some v => Some v
  | None => if decide (k = "type") then Some (JStr type) else None
  end.
Proof.
  unfold frame_of. rewrite lookup_union.
  destruct (payload !! k) as [v|] eqn:E.
  - by destruct ({[ "type" := JStr type ]} !! k).
  - rewrite left_id by apply _. rewrite lookup_singleton. by repeat case_decide.
Qed.

Lemma none_open_not_connected w : none_open w → isConnected w = false.
Proof.
  unfold none_open, isConnected. intros Hno. destruct (ws (svc w)) as [id|]; [|done].
  apply bool_decide_eq_false. intros Hid. apply Hno. by eapply list_elem_of_lookup_2.
Qed.

Lemma connect_none_open w : none_open w → none_open (connect w).1.
Proof.
  unfold none_open, connect. destruct (_ || _); cbn [fst sockets]; [done|].
  intros Hno [Hin|Hin%list_elem_of_singleton]%elem_of_app; done.
Qed.

Lemma step_none_open e w w' out :
  step e w = Some (w', out) → is_EvOpen e = false → none_open w → none_open w'.
Proof.
  intros Hstep He Hno. destruct e; try done; cbn [step] in Hstep.
  - step_inv Hstep. by apply connect_none_open.
  - step_inv Hstep. unfold disconnect, none_open in *.
    destruct (ws (svc w)) as [id|]; cbn [fst sockets]; [|done].
    intros (i & Hi)%list_elem_of_lookup_1. rewrite list_lookup_alter in Hi.
    case_decide; subst.
    + destruct (sockets w !! i) as [st|] eqn:E; [|done].
      injection Hi as Hi. by destruct st.
    + apply Hno. by eapply list_elem_of_lookup_2.
  - step_inv Hstep. unfold send. by repeat case_match.
  - by step_inv Hstep.
  - by step_inv Hstep.
  - destruct (timers w) as [|n]; [done|]. step_inv Hstep. by apply connect_none_open.
  - assert (none_open (set_socket id CLOSED w)) as Hno'.
    { unfold none_open, set_socket in *. cbn [sockets].
      intros (i & Hi)%list_elem_of_lookup_1.
      destruct (decide (id = i)) as [->|Hne].
      - apply list_lookup_insert_Some in Hi as [(_ & Hbad & _)|(? & _)]; done.
      - rewrite list_lookup_insert_ne in Hi by done.
        apply Hno. by eapply list_elem_of_lookup_2. }
    destruct (sockets w !! id) as [[]|]; try done; step_inv Hstep;
      unfold onclose; destruct (decide _); done.
  - destruct (sockets w !! id) as [[]|]; try done; by step_inv Hstep.
  - destruct (sockets w !! id) as [[]|]; try done. step_inv Hstep.
    by rewrite (proj1 (onmessage_quiet parsed w)).
Qed.

Lemma exec_none_open evs w w' tr :
  exec evs w = Some (w', tr) →
  Forall (λ e, is_EvOpen e = false) evs → none_open w → none_open w'.
Proof.
  revert w tr. induction evs as [|e evs IH]; intros w tr Hex Hall Hno.
  - by injection Hex as <- _.
  - apply Forall_cons in Hall as [He Hall].
    apply exec_cons_inv in Hex as (w1 & out & tr1 & Hstep & Hex & _).
    eapply IH; [done..|]. by eapply step_none_open.
Qed.

Lemma filter_send_cons o out :
  filter is_WsSend (o :: out) = if is_WsSend o then o :: filter is_WsSend out else filter is_WsSend out.
Proof. rewrite filter_cons. by destruct (is_WsSend o). Qed.

Lemma connect_sends_nothing w : filter is_WsSend (connect w).2 = [].
Proof. unfold connect. by destruct (_ || _). Qed.

(** C7: [send(type, payload)] on a connected service writes the frame
    [{type, ...payload}] to its socket and changes nothing; on a service that
    is not connected it writes nothing, warns on the console and changes
    nothing, so nothing is kept for later. The frame holds the payload's
    entries and, unless the payload has its own, [type]. A service that has
    seen no successful open since the start is not connected. A frame is
    written only by a call of [send] on a connected service, in that call:
    no other event retries one. *)
Theorem send_writes_iff_connected (type : string) (payload : gmap string jsval) (w : World) :
  (isConnected w = true →
     ∃ id, ws (svc w) = Some id ∧ sockets w !! id = Some OPEN ∧
           send type payload w = (w, [WsSend id (frame_of type payload)])) ∧
  (isConnected w = false →
     send type payload w = (w, [ConsoleWarn "WebSocket not connected, cannot send message"])) ∧
  (∀ k, frame_of type payload !! k =
        match payload !! k with
        | Some v => Some v
        | None => if decide (k = "type") then Some (JStr type) else None
        end) ∧
  (∀ protocol host evs tr,
     exec evs (initial protocol host) = Some (w, tr) →
     Forall (λ e, is_EvOpen e = false) evs →
     isConnected w = false) ∧
  (∀ e w' out,
     step e w = Some (w', out) → filter is_WsSend out ≠ [] →
     isConnected w = true ∧ w' = w ∧
     ∃ t pl id, e = CallSend t pl ∧ out = [WsSend id (frame_of t pl)]).
Proof.
  split_and!.
  - unfold isConnected, send. destruct (ws (svc w)) as [id|]; [|done].
    intros Hc. rewrite Hc. apply bool_decide_eq_true in Hc. by exists id.
  - unfold isConnected, send. destruct (ws (svc w)) as [id|]; [|done]. by intros ->.
  - apply frame_of_lookup.
  - intros protocol host evs tr Hex Hall. apply none_open_not_connected.
    eapply exec_none_open; [done..|]. unfold none_open, initial. cbn [sockets].
    apply not_elem_of_nil.
  - intros e w' out Hstep Hsend. destruct e; cbn [step] in Hstep.
    + step_inv Hstep. by rewrite connect_sends_nothing in Hsend.
    + step_inv Hstep. unfold disconnect in Hsend. by destruct (ws (svc w)).
    + step_inv Hstep. unfold send, isConnected in *.
      destruct (ws (svc w)) as [id|]; [|done].
      destruct (bool_decide (sockets w !! id = Some OPEN)); [|done].
      split_and!; [done..|]. by eexists _, _, _.
    + by step_inv Hstep.
    + by step_inv Hstep.
    + destruct (timers w); [done|]. step_inv Hstep.
      by rewrite connect_sends_nothing in Hsend.
    + destruct (sockets w !! id) as [[]|]; try done. step_inv Hstep.
      unfold onopen in Hsend. cbn [snd] in Hsend.
      by rewrite filter_send_cons, emit_sends_nothing in Hsend.
    + exfalso. apply Hsend.
      destruct (sockets w !! id) as [[]|]; try done; step_inv Hstep;
        unfold onclose; destruct (decide _); cbn [snd];
        rewrite ?filter_app, filter_send_cons, emit_sends_nothing; done.
    + exfalso. apply Hsend.
      destruct (sockets w !! id) as [[]|]; try done; step_inv Hstep;
        unfold onerror; cbn [snd]; rewrite filter_send_cons, emit_sends_nothing; done.
    + exfalso. apply Hsend.
      destruct (sockets w !! id) as [[]|]; try done. step_inv Hstep.
      unfold onmessage. repeat case_match; cbn [snd];
        first [apply emit_sends_nothing | done |
               apply filter_dispatch_only; [by intros []|apply invoke_dispatch_only]].
Qed.
Lemma send_writes_iff_connected_witness :
  (∃ id, ws (svc (after [CallConnect; EvOpen 0] w0)) = Some id ∧
         sockets (after [CallConnect; EvOpen 0] w0) !! id = Some OPEN ∧
         send "job:resume" {[ "job_id" := JStr "J1" ]} (after [CallConnect; EvOpen 0] w0) =
           (after [CallConnect; EvOpen 0] w0,
            [WsSend id (frame_of "job:resume" {[ "job_id" := JStr "J1" ]})]))
  ∧ send "job:resume" {[ "job_id" := JStr "J1" ]} w0 =
      (w0, [ConsoleWarn "WebSocket not connected, cannot send message"])
  ∧ isConnected (after [CallConnect] w0) = false.
Proof.
  split_and!.
  - apply (send_writes_iff_connected "job:resume" {[ "job_id" := JStr "J1" ]}
             (after [CallConnect; EvOpen 0] w0)).
    reflexivity.
  - apply (send_writes_iff_connected "job:resume" {[ "job_id" := JStr "J1" ]} w0).
    reflexivity.
  - destruct (send_writes_iff_connected "x" ∅ (after [CallConnect] w0))
      as (_ & _ & _ & Hstart & _).
    apply (Hstart "https:" "app.example" [CallConnect]
             (default [] (snd <$> exec [CallConnect] w0))).
    + reflexivity.
    + repeat constructor.
Defined.

End SocketFacts.

(** ** Event registry *)

Module RegistryFacts.
Import Socket JsSetFacts SocketFacts.

Section sorted.
Context {A : Type}.
Implicit Types (R : relation A) (l : list A).

Lemma StronglySorted_snoc R l x :
  StronglySorted R l → Forall (λ y, R y x) l → StronglySorted R (l ++ [x]).
Proof.
  induction 1 as [|y l Hl IH Hy]; intros Hall; simpl.
  - repeat constructor.
  - apply Forall_cons in Hall as [Hyx Hall]. constructor; [by apply IH|].
    apply Forall_app. split; [done|]. by repeat constructor.
Qed.

Lemma StronglySorted_filter R (P : A → Prop) `{∀ x, Decision (P x)} l :
  StronglySorted R l → StronglySorted R (filter P l).
Proof.
  induction 1 as [|y l Hl IH Hy]; [constructor|].
  rewrite filter_cons. destruct (decide (P y)); [|done].
  constructor; [done|]. rewrite Forall_forall in Hy.
  apply Forall_forall. intros x [_ Hx]%list_elem_of_filter. by apply Hy.
Qed.

Lemma StronglySorted_mono R R' l :
  (∀ x y, x ∈ l → y ∈ l → R x y → R' x y) →
  StronglySorted R l → StronglySorted R' l.
Proof.
  intros Hmono Hs. induction Hs as [|y l Hl IH Hy]; [constructor|].
  constructor.
  - apply IH. intros x z Hx Hz. apply Hmono; by right.
  - rewrite Forall_forall in Hy. apply Forall_forall. intros x Hx.
    apply Hmono; [by left|by right|by apply Hy].
Qed.
End sorted.

Lemma registered_on type handler hs t :
  registered (on type handler hs) t =
  if decide (t = type) then JsSet.add handler (registered hs type) else registered hs t.
Proof.
  unfold registered, on. rewrite lookup_alter.
  destruct (decide (type = t)) as [<-|Hne].
  - rewrite decide_True by done. destruct (hs !! type) as [l|] eqn:E.
    + by rewrite E.
    + by rewrite lookup_insert_eq.
  - rewrite decide_False by done. destruct (hs !! type); [done|].
    by rewrite lookup_insert_ne.
Qed.

Lemma registered_unsubscribe type handler hs t :
  registered (unsubscribe type handler hs) t =
  if decide (t = type) then JsSet.delete handler (registered hs type) else registered hs t.
Proof.
  unfold registered, unsubscribe. rewrite lookup_alter.
  destruct (decide (type = t)) as [<-|Hne].
  - rewrite decide_True by done. by destruct (hs !! type).
  - by rewrite decide_False.
Qed.

Lemma since_index type handler acc ops :
  (foldl (since_step type handler) acc ops).1 = acc.1 + length ops.
Proof.
  revert acc. induction ops as [|o ops IH]; intros acc; simpl; [lia|].
  rewrite IH. simpl. lia.
Qed.

Lemma registered_since_snoc ops o type handler :
  registered_since (ops ++ [o]) type handler =
  match o with
  | OpOn t h =>
      if decide (t = type ∧ h = handler)
      then match registered_since ops type handler with
           | Some i => Some i
           | None => Some (length ops)
           end
      else registered_since ops type handler
  | OpOff t h =>
      if decide (t = type ∧ h = handler) then None else registered_since ops type handler
  end.
Proof.
  unfold registered_since. rewrite foldl_snoc. unfold since_step at 1. cbn [snd].
  by rewrite since_index.
Qed.

Lemma registry_after_snoc ops o :
  registry_after (ops ++ [o]) = apply_op (registry_after ops) o.
Proof. unfold registry_after. by rewrite foldl_snoc. Qed.

Lemma RegInv_holds ops type : RegInv ops type.
Proof.
  induction ops as [|o ops IH] using rev_ind.
  - split; simpl.
    + constructor.
    + intros h. unfold registered, registry_after, registered_since. simpl.
      rewrite lookup_empty. simpl. split; [by intros ?%elem_of_nil|by intros [? ?]].
    + done.
    + unfold registered, registry_after. simpl. rewrite lookup_empty. constructor.
  - destruct IH as [Hnd Hel Hbd Hso].
    assert (∀ h, registered_since ops type h = None ↔ h ∉ registered (registry_after ops) type)
      as Hnone.
    { intros h. rewrite Hel. rewrite <- eq_None_not_Some. done. }
    destruct o as [t h0|t h0].
    + (* on *)
      destruct (decide (type = t)) as [<-|Hne].
      * destruct (decide (h0 ∈ registered (registry_after ops) type)) as [Hin|Hin].
        -- assert (∀ h, registered_since (ops ++ [OpOn type h0]) type h =
                        registered_since ops type h) as Hsame.
           { intros h. rewrite registered_since_snoc. case_decide as Hd; [|done].
             destruct Hd as [_ <-]. apply Hel in Hin as [i ->]. done. }
           assert (registered (registry_after (ops ++ [OpOn type h0])) type =
                   registered (registry_after ops) type) as Hreg.
           { rewrite registry_after_snoc. cbn [apply_op]. rewrite registered_on.
             rewrite decide_True by done. by apply add_present. }
           split; rewrite ?Hreg.
           ++ done.
           ++ intros h. by rewrite Hsame.
           ++ intros h i. rewrite Hsame, length_app. intros ?%Hbd. lia.
           ++ eapply StronglySorted_mono; [|done].
              intros x y _ _ (i & j & ? & ? & ?). exists i, j. by rewrite !Hsame.
        -- assert (registered (registry_after (ops ++ [OpOn type h0])) type =
                   registered (registry_after ops) type ++ [h0]) as Hreg.
           { rewrite registry_after_snoc. cbn [apply_op]. rewrite registered_on.
             rewrite decide_True by done. by apply add_fresh. }
           assert (registered_since (ops ++ [OpOn type h0]) type h0 = Some (length ops))
             as Hnew.
           { rewrite registered_since_snoc, decide_True by done.
             by rewrite (proj2 (Hnone h0) Hin). }
           assert (∀ h, h ≠ h0 → registered_since (ops ++ [OpOn type h0]) type h =
                                 registered_since ops type h) as Hsame.
           { intros h Hh. rewrite registered_since_snoc, decide_False; [done|].
             intros [_ ?]. by subst. }
           split; rewrite ?Hreg.
           ++ apply NoDup_app. split_and!; [done| |apply NoDup_singleton].
              intros x Hx ->%list_elem_of_singleton. done.
           ++ intros h. rewrite elem_of_app, list_elem_of_singleton.
              destruct (decide (h = h0)) as [->|Hh].
              ** rewrite Hnew. split; [by eexists|by right].
              ** rewrite Hsame by done. rewrite <- Hel. split; [by intros [?|?]|by left].
           ++ intros h i. rewrite length_app. cbn [length].
              destruct (decide (h = h0)) as [->|Hh].
              ** rewrite Hnew. intros [= <-]. lia.
              ** rewrite Hsame by done. intros ?%Hbd. lia.
           ++ apply StronglySorted_snoc.
              ** eapply StronglySorted_mono; [|done].
                 intros x y Hx Hy (i & j & ? & ? & ?). exists i, j.
                 rewrite !Hsame; [done|intros ->; done|intros ->; done].
              ** apply Forall_forall. intros x Hx.
                 destruct (proj1 (Hel x) Hx) as [i Hi].
                 exists i, (length ops). rewrite Hnew.
                 rewrite Hsame by (intros ->; done).
                 split_and!; [done|done|by eapply Hbd].
      * assert (∀ h, registered_since (ops ++ [OpOn t h0]) type h =
                     registered_since ops type h) as Hsame.
        { intros h. rewrite registered_since_snoc, decide_False; [done|].
          intros [? _]. by subst. }
        assert (registered (registry_after (ops ++ [OpOn t h0])) type =
                registered (registry_after ops) type) as Hreg.
        { rewrite registry_after_snoc. cbn [apply_op]. rewrite registered_on.
          by rewrite decide_False. }
        split; rewrite ?Hreg.
        -- done.
        -- intros h. by rewrite Hsame.
        -- intros h i. rewrite Hsame, length_app. intros ?%Hbd. lia.
        -- eapply StronglySorted_mono; [|done].
           intros x y _ _ (i & j & ? & ? & ?). exists i, j. by rewrite !Hsame.
    + (* the disposer *)
      destruct (decide (type = t)) as [<-|Hne].
      * assert (registered (registry_after (ops ++ [OpOff type h0])) type =
                JsSet.delete h0 (registered (registry_after ops) type)) as Hreg.
        { rewrite registry_after_snoc. cbn [apply_op]. rewrite registered_unsubscribe.
          by rewrite decide_True. }
        assert (registered_since (ops ++ [OpOff type h0]) type h0 = None) as Hgone.
        { by rewrite registered_since_snoc, decide_True. }
        assert (∀ h, h ≠ h0 → registered_since (ops ++ [OpOff type h0]) type h =
                              registered_since ops type h) as Hsame.
        { intros h Hh. rewrite registered_since_snoc, decide_False; [done|].
          intros [_ ?]. by subst. }
        split; rewrite ?Hreg.
        -- by apply delete_NoDup.
        -- intros h. rewrite elem_of_delete.
           destruct (decide (h = h0)) as [->|Hh].
           ++ rewrite Hgone. split; [by intros [? _]|by intros [? ?]].
           ++ rewrite Hsame by done. rewrite <- Hel. tauto.
        -- intros h i. rewrite length_app. cbn [length].
           destruct (decide (h = h0)) as [->|Hh].
           ++ by rewrite Hgone.
           ++ rewrite Hsame by done. intros ?%Hbd. lia.
        -- eapply StronglySorted_mono;
             [|apply (StronglySorted_filter _ (λ x, x ≠ h0)); exact Hso].
           intros x y [Hx _]%elem_of_delete [Hy _]%elem_of_delete (i & j & ? & ? & ?).
           exists i, j. by rewrite !Hsame.
      * assert (∀ h, registered_since (ops ++ [OpOff t h0]) type h =
                     registered_since ops type h) as Hsame.
        { intros h. rewrite registered_since_snoc, decide_False; [done|].
          intros [? _]. by subst. }
        assert (registered (registry_after (ops ++ [OpOff t h0])) type =
                registered (registry_after ops) type) as Hreg.
        { rewrite registry_after_snoc. cbn [apply_op]. rewrite registered_unsubscribe.
          by rewrite decide_False. }
        split; rewrite ?Hreg.
        -- done.
        -- intros h. by rewrite Hsame.
        -- intros h i. rewrite Hsame, length_app. intros ?%Hbd. lia.
        -- eapply StronglySorted_mono; [|done].
           intros x y _ _ (i & j & ? & ? & ?). exists i, j. by rewrite !Hsame.
Qed.

Lemma connect_handlers w : handlers (svc (connect w).1) = handlers (svc w).
Proof. unfold connect. by destruct (_ || _). Qed.

(** Only [on] and the disposers change the registry. *)
Lemma step_handlers e w w' out :
  step e w = Some (w', out) →
  handlers (svc w') =
  match e with
  | CallOn type handler => on type handler (handlers (svc w))
  | CallUnsubscribe type handler => unsubscribe type handler (handlers (svc w))
  | _ => handlers (svc w)
  end.
Proof.
  intros Hstep. destruct e; cbn [step] in Hstep.
  - step_inv Hstep. apply connect_handlers.
  - step_inv Hstep. unfold disconnect. by destruct (ws (svc w)).
  - step_inv Hstep. unfold send. by repeat case_match.
  - by step_inv Hstep.
  - by step_inv Hstep.
  - destruct (timers w); [done|]. step_inv Hstep. by rewrite connect_handlers.
  - destruct (sockets w !! id) as [[]|]; try done. by step_inv Hstep.
  - destruct (sockets w !! id) as [[]|]; try done; step_inv Hstep;
      unfold onclose; by destruct (decide _).
  - destruct (sockets w !! id) as [[]|]; try done; by step_inv Hstep.
  - destruct (sockets w !! id) as [[]|]; try done. step_inv Hstep.
    by rewrite (proj1 (onmessage_quiet parsed w)).
Qed.

Lemma exec_handlers evs w w' tr :
  exec evs w = Some (w', tr) →
  handlers (svc w') = foldl apply_op (handlers (svc w)) (reg_ops evs).
Proof.
  revert w tr. induction evs as [|e evs IH]; intros w tr Hex.
  - by injection Hex as <- _.
  - apply exec_cons_inv in Hex as (w1 & out & tr1 & Hstep & Hex & _).
    rewrite (IH _ _ Hex), (step_handlers _ _ _ _ Hstep).
    by destruct e.
Qed.

(** C8: at any point of a run, dispatching an event invokes, within the call
    of [emit], the handlers registered under its type and then, unless the
    type is ['message'], those registered under ['message']; an event of type
    ['message'] reaches them once. The handlers registered under a type are
    those put there by [on] and not disposed since, each once, in the order
    in which they were registered. *)
Theorem dispatch_in_registration_order
    (protocol host : string) (evs : list Event) (w : World)
    (tr : list (Event * list Obs)) (type : string) (d : jsdata) :
  exec evs (initial protocol host) = Some (w, tr) →
  emit (handlers (svc w)) type d =
    Emit type ::
    ((λ h, Invoke h d) <$> registered (handlers (svc w)) type) ++
    (if decide (type = "message") then []
     else (λ h, Invoke h d) <$> registered (handlers (svc w)) "message")
  ∧ NoDup (registered (handlers (svc w)) type)
  ∧ (∀ h, h ∈ registered (handlers (svc w)) type
          ↔ is_Some (registered_since (reg_ops evs) type h))
  ∧ StronglySorted (registered_before (reg_ops evs) type)
      (registered (handlers (svc w)) type).
Proof.
  intros Hex. apply exec_handlers in Hex. cbn [initial svc handlers] in Hex.
  change (foldl apply_op ∅ (reg_ops evs)) with (registry_after (reg_ops evs)) in Hex.
  rewrite Hex. destruct (RegInv_holds (reg_ops evs) type) as [Hnd Hel _ Hso].
  split_and!; [|done..].
  unfold emit. by destruct (decide (type = "message")); [rewrite decide_False by (by intros ?)|rewrite decide_True].
Qed.

Lemma dispatch_in_registration_order_witness :
  emit (handlers (svc (after registrations w0))) "connected" (DObj ∅) =
    [Emit "connected"; Invoke 3 (DObj ∅); Invoke 1 (DObj ∅); Invoke 2 (DObj ∅)]
  ∧ registered_since (reg_ops registrations) "connected" 3 = Some 2
  ∧ registered_since (reg_ops registrations) "connected" 1 = Some 4.
Proof.
  assert (∃ tr, exec registrations w0 = Some (after registrations w0, tr)) as [tr Hex].
  { vm_compute. by eexists. }
  destruct (dispatch_in_registration_order _ _ _ _ _ "connected" (DObj ∅) Hex)
    as (Hemit & _ & _ & _).
  split_and!; [|reflexivity..].
  rewrite Hemit. vm_compute. reflexivity.
Defined.
End RegistryFacts.

(** ** Job store *)

Module JobStoreFacts.
Import JobStore.

Lemma with_status_rest j new_status : rest_of (with_status j new_status) = rest_of j.
Proof. done. Qed.

Lemma with_status_status j new_status : status (with_status j new_status) = new_status.
Proof. done. Qed.

(** C9: [updateJobStatus id0 new_status] changes the status of the jobs
    whose id is [id0] to [new_status] and nothing else: every other field of
    such a job, every other job, their number and order, the logs of the
    selected job and the remaining fields of the store stay as they are. The
    selected job is treated like a job of the list. Any status is taken. *)
Theorem updateJobStatus_changes_only_that_status
    (id0 new_status : string) (state : JobState) :
  let state' := updateJobStatus id0 new_status state in
  length (jobs state') = length (jobs state) ∧
  (∀ i j, jobs state !! i = Some j →
     ∃ j', jobs state' !! i = Some j' ∧
       rest_of j' = rest_of j ∧
       (id j = id0 → status j' = new_status) ∧
       (id j ≠ id0 → j' = j)) ∧
  match selectedJob state with
  | Some sj =>
      ∃ sj', selectedJob state' = Some sj' ∧
        logs sj' = logs sj ∧
        rest_of (job sj') = rest_of (job sj) ∧
        (id (job sj) = id0 → status (job sj') = new_status) ∧
        (id (job sj) ≠ id0 → sj' = sj)
  | None => selectedJob state' = None
  end ∧
  isLoading state' = isLoading state ∧
  error state' = error state ∧
  pagination state' = pagination state ∧
  filters state' = filters state.
Proof.
  intros state'. unfold state', updateJobStatus. cbn [jobs selectedJob isLoading error pagination filters].
  split_and!; try done.
  - by rewrite length_map.
  - intros i j Hj. rewrite list_lookup_fmap, Hj. cbn [fmap option_fmap option_map].
    destruct (String.eqb_spec (id j) id0) as [Heq|Hne].
    + exists (with_status j new_status). split_and!; done.
    + exists j. split_and!; done.
  - destruct (selectedJob state) as [sj|]; [|done].
    destruct (String.eqb_spec (id (job sj)) id0) as [Heq|Hne].
    + eexists. split_and!; try done.
    + exists sj. split_and!; done.
Qed.

Lemma updateJobStatus_changes_only_that_status_witness :
  (∃ j', jobs (updateJobStatus "J1" "applied" sample_store) !! 0 = Some j' ∧
         rest_of j' = rest_of (sample_job "J1" "in_progress") ∧
         status j' = "applied")
  ∧ jobs (updateJobStatus "J1" "applied" sample_store) !! 1 = Some (sample_job "J2" "pending").
Proof.
  destruct (updateJobStatus_changes_only_that_status "J1" "applied" sample_store)
    as (_ & Hjobs & _).
  split.
  - destruct (Hjobs 0 (sample_job "J1" "in_progress") eq_refl) as (j' & H1 & Hrest & Hst & _).
    exists j'. split_and!; [exact H1|exact Hrest|]. apply Hst. reflexivity.
  - destruct (Hjobs 1 (sample_job "J2" "pending") eq_refl) as (j' & H1 & _ & _ & Hsame).
    rewrite H1. f_equal. apply Hsame. discriminate.
Defined.

End JobStoreFacts.

(** ** Notification poller: runs of ticks *)

Module PollerRunsFacts.
Import Poller JsSetFacts PollerFacts PollerRuns.

Lemma show_fresh_small n s :
  notificationKey n ∉ s → NoDup s → length s < 100 →
  showNotification n s =
    (s ++ [notificationKey n],
     [Check (notificationKey n); Insert (notificationKey n)] ++
     match toast_of n with Some t => [Present n t] | None => [] end).
Proof.
  intros Hin Hnd Hlen. rewrite show_fresh by done.
  destruct (decide _) as [Hbig|_]; [|done].
  rewrite length_app in Hbig. cbn [length] in Hbig. lia.
Qed.

(** While the seen-set has room for every notification of a list, showing
    the list loses no key: what was seen stays seen and every key of the list
    is seen afterwards. *)
Lemma run_show_no_overflow ns s :
  NoDup s → length s + length ns ≤ 100 →
  NoDup (run_show ns s).1
  ∧ (∀ k, k ∈ s → k ∈ (run_show ns s).1)
  ∧ Forall (λ n, notificationKey n ∈ (run_show ns s).1) ns.
Proof.
  revert s. induction ns as [|n ns IH]; intros s Hnd Hlen.
  - by split_and!.
  - cbn [length] in Hlen. rewrite run_show_cons. cbn [fst].
    destruct (decide (notificationKey n ∈ s)) as [Hin|Hin].
    + rewrite show_seen by done. cbn [fst].
      destruct (IH s Hnd ltac:(lia)) as (H1 & H2 & H3).
      split_and!; [done|done|]. apply Forall_cons. split; [by apply H2|done].
    + rewrite show_fresh_small by (done || lia). cbn [fst].
      destruct (IH (s ++ [notificationKey n])) as (H1 & H2 & H3).
      { apply NoDup_app. split_and!; [done| |apply NoDup_singleton].
        intros x Hx ->%list_elem_of_singleton. done. }
      { rewrite length_app. cbn [length]. lia. }
      split_and!; [done| |].
      * intros k Hk. apply H2, elem_of_app. by left.
      * apply Forall_cons. split; [|done].
        apply H2, elem_of_app. right. by apply list_elem_of_singleton.
Qed.

(** A list whose keys are all seen is checked and nothing else. *)
Lemma run_show_all_seen ns s :
  Forall (λ n, notificationKey n ∈ s) ns →
  run_show ns s = (s, (λ n, Check (notificationKey n)) <$> ns).
Proof.
  induction 1 as [|n ns Hn _ IH]; [done|].
  rewrite run_show_cons, show_seen by done. cbn [fst snd]. by rewrite IH.
Qed.

Lemma run_ticks_NoDup ticks :
  NoDup (shownNotificationsRef (run_ticks ticks initial).1).
Proof.
  destruct (run_ticks_as_run_show ticks initial) as [-> _].
  apply (run_show_inv _ [] [] Inv_nil).
Qed.

Lemma poll_unfold ns r :
  pollNotifications (Some ns) r =
  (match ns with
   | [] => r
   | first :: _ =>
       {| lastSeenRef := Some (created_at first);
          shownNotificationsRef :=
            (run_show (filter high_or_urgent ns) (shownNotificationsRef r)).1 |}
   end,
   (run_show (filter high_or_urgent ns) (shownNotificationsRef r)).2).
Proof.
  destruct ns as [|n ns]; [done|].
  unfold pollNotifications. rewrite poll_loop. by rewrite app_nil_l.
Qed.

(** X1: the same response fetched again right away presents nothing and leaves
    the refs as they are, as long as the seen-set had room for the alerts of
    the response: every notification that passes the filter is checked, found
    and skipped. *)
Theorem replayed_response_presents_nothing
    (ticks : list (option (list SystemNotification))) (ns : list SystemNotification) :
  let r := (run_ticks ticks initial).1 in
  let r1 := (pollNotifications (Some ns) r).1 in
  length (shownNotificationsRef r) + length (filter high_or_urgent ns) ≤ 100 →
  pollNotifications (Some ns) r1 =
    (r1, (λ n, Check (notificationKey n)) <$> filter high_or_urgent ns).
Proof.
  intros r r1 Hroom. unfold r1. rewrite (poll_unfold ns r). cbn [fst].
  destruct (run_show_no_overflow (filter high_or_urgent ns) (shownNotificationsRef r))
    as (Hnd & Hkeep & Hall); [apply run_ticks_NoDup|done|].
  destruct ns as [|n ns]; [done|].
  rewrite poll_unfold. cbn [shownNotificationsRef].
  rewrite (run_show_all_seen _ _ Hall). done.
Qed.

Lemma replayed_response_presents_nothing_witness :
  presented (pollNotifications (Some [alert_A; info_B])
               (pollNotifications (Some [alert_A; info_B]) initial).1).2 = [].
Proof.
  pose proof (replayed_response_presents_nothing [] [alert_A; info_B]) as H.
  cbn [run_ticks fst] in H. rewrite H; [reflexivity|]. vm_compute. lia.
Defined.

(** One call of [showNotification] for a notification that passes the
    filter: no alert, or the alert of the [high]/[urgent] branch. *)
Lemma show_alerts n s :
  high_or_urgent n = true →
  Forall (λ p, p.1 = n ∧ toast_of n = Some p.2 ∧ alert_style p.2
               ∧ text p.2 = title n +:+ ": " +:+ message n)
         (alerts (showNotification n s).2).
Proof.
  intros Hn.
  assert (∀ t, toast_of n = Some t →
               alert_style t ∧ text t = title n +:+ ": " +:+ message n) as Hstyle.
  { unfold high_or_urgent in Hn. unfold toast_of, alert_style.
    destruct (priority n); try done; intros t;
      repeat case_match; intros [= <-]; cbn; split; auto 10. }
  unfold showNotification.
  destruct (JsSet.has _ _); [apply Forall_nil_2|].
  destruct (decide _); destruct (toast_of n) as [t|] eqn:Ht; cbn;
    repeat first [apply Forall_nil_2 | apply Forall_cons; split];
    cbn; destruct (Hstyle t eq_refl); done.
Qed.

Lemma alerts_app o1 o2 : alerts (o1 ++ o2) = alerts o1 ++ alerts o2.
Proof. apply omap_app. Qed.

Lemma run_show_alerts ns s :
  Forall (λ n, high_or_urgent n = true) ns →
  Forall (λ p, high_or_urgent p.1 = true ∧ toast_of p.1 = Some p.2 ∧ alert_style p.2
               ∧ text p.2 = title p.1 +:+ ": " +:+ message p.1)
         (alerts (run_show ns s).2).
Proof.
  revert s. induction ns as [|n ns IH]; intros s Hall; [apply Forall_nil_2|].
  apply Forall_cons in Hall as [Hn Hall]. rewrite run_show_cons. cbn [snd].
  rewrite alerts_app. apply Forall_app. split; [|by apply IH].
  eapply Forall_impl; [apply (show_alerts n s Hn)|].
  intros [n' t] (-> & ? & ? & ?). done.
Qed.

(** X2: whatever the ticks fetch and whatever was seen before, an alert of the
    poller is for a [high] or [urgent] notification, reads [title: message]
    and has one of the three alert styles (error, 8 s; lock, 10 s; warning,
    6 s): the success and plain styles of the [normal] branch never show. *)
Theorem poller_shows_alert_styles_only
    (ticks : list (option (list SystemNotification))) (r : Refs)
    (n : SystemNotification) (t : Toast) :
  (n, t) ∈ alerts (run_ticks ticks r).2 →
  (priority n = high ∨ priority n = urgent) ∧
  toast_of n = Some t ∧
  alert_style t ∧
  fn t ≠ toast_success ∧
  text t = title n +:+ ": " +:+ message n.
Proof.
  intros Hin. destruct (run_ticks_as_run_show ticks r) as [_ Ho]. rewrite Ho in Hin.
  pose proof (run_show_alerts _ (shownNotificationsRef r)
                (Forall_filter_true high_or_urgent (fetched ticks))) as Hall.
  rewrite Forall_forall in Hall. destruct (Hall _ Hin) as (Hp & Ht & Hs & Htxt).
  cbn [fst snd] in *. split_and!; try done.
  - unfold high_or_urgent in Hp. apply orb_true_iff in Hp.
    destruct Hp as [H|H]; apply bool_decide_eq_true in H; auto.
  - destruct Hs as [(-> & _)|[(-> & _)|(-> & _)]]; done.
Qed.

Lemma poller_shows_alert_styles_only_witness :
  alert_style {| fn := toast_error; text := "Job: error"; duration := 8000%Z;
                 icon := None; background := "#1e1e2e"; color := "#f38ba8";
                 border := "1px solid #f38ba8" |}.
Proof.
  apply (poller_shows_alert_styles_only [Some [alert_A; info_B]] initial alert_A).
  vm_compute. left.
Defined.

Lemma poll_not_effective resp r : effective resp = false → pollNotifications resp r = (r, []).
Proof. by destruct resp as [[|]|]. Qed.

(** X3: ticks whose fetch fails or answers with no notification can be taken out
    of a run: refs and observations are the same without them. *)
Theorem failed_and_empty_ticks_change_nothing
    (ticks : list (option (list SystemNotification))) (r : Refs) :
  run_ticks ticks r = run_ticks (filter effective ticks) r.
Proof.
  revert r. induction ticks as [|resp ticks IH]; intros r; [done|].
  rewrite filter_cons. destruct (decide (effective resp)) as [He|He].
  - cbn [run_ticks]. destruct (pollNotifications resp r) as [r1 ops1]. by rewrite IH.
  - apply Is_true_false in He. cbn [run_ticks]. rewrite (poll_not_effective _ _ He).
    rewrite IH. by destruct (run_ticks _ r).
Qed.

Lemma poll_with_lastSeen resp v r :
  (pollNotifications resp (with_lastSeen v r)).2 = (pollNotifications resp r).2
  ∧ shownNotificationsRef (pollNotifications resp (with_lastSeen v r)).1 =
      shownNotificationsRef (pollNotifications resp r).1
  ∧ lastSeenRef (pollNotifications resp (with_lastSeen v r)).1 =
      match resp with
      | Some (first :: _) => Some (created_at first)
      | _ => v
      end.
Proof.
  destruct resp as [[|n ns]|]; [done| |done].
  rewrite !poll_unfold. done.
Qed.

Lemma with_lastSeen_self r : with_lastSeen (lastSeenRef r) r = r.
Proof. by destruct r. Qed.

Lemma refs_eq r1 r2 :
  lastSeenRef r1 = lastSeenRef r2 → shownNotificationsRef r1 = shownNotificationsRef r2 →
  r1 = r2.
Proof. destruct r1, r2. cbn. by intros -> ->. Qed.

(** X4: [lastSeenRef] is written and never read: alerts, checks and the seen-set
    of a run do not depend on it, and after the run it holds the [created_at]
    of the first notification of the last tick that fetched any (of whatever
    priority), or what it held before when there was none. *)
Theorem lastSeen_is_write_only
    (ticks : list (option (list SystemNotification))) (v : option string) (r : Refs) :
  (run_ticks ticks (with_lastSeen v r)).2 = (run_ticks ticks r).2
  ∧ shownNotificationsRef (run_ticks ticks (with_lastSeen v r)).1 =
      shownNotificationsRef (run_ticks ticks r).1
  ∧ lastSeenRef (run_ticks ticks (with_lastSeen v r)).1 = last_seen_of ticks v.
Proof.
  revert v r. induction ticks as [|resp ticks IH]; intros v r; [done|].
  cbn [run_ticks last_seen_of foldl].
  destruct (poll_with_lastSeen resp v r) as (Ho & Hs & Hl).
  destruct (pollNotifications resp (with_lastSeen v r)) as [r1 ops1] eqn:E1.
  destruct (pollNotifications resp r) as [r2 ops2] eqn:E2. cbn [fst snd] in *.
  assert (r1 = with_lastSeen (lastSeenRef r1) r2) as Hr1.
  { apply refs_eq; [done|]. by rewrite Hs. }
  destruct (IH (lastSeenRef r1) r2) as (IHo & IHs & IHl). rewrite <- Hr1 in *.
  destruct (run_ticks ticks r1) as [r1' ops1']. destruct (run_ticks ticks r2) as [r2' ops2'].
  cbn [fst snd] in *. subst. split_and!; [done|done|].
  rewrite IHl. unfold last_seen_of. by rewrite Hl.
Qed.

Lemma presented_app o1 o2 : presented (o1 ++ o2) = presented o1 ++ presented o2.
Proof. apply omap_app. Qed.

Lemma run_show_presented_sublist ns s : presented (run_show ns s).2 `sublist_of` ns.
Proof.
  revert s. induction ns as [|n ns IH]; intros s; [done|].
  rewrite run_show_cons. cbn [snd]. rewrite presented_app.
  assert (presented (showNotification n s).2 = [] ∨ presented (showNotification n s).2 = [n])
    as [->| ->].
  { unfold showNotification. repeat case_match; simplify_eq; cbn; auto. }
  - apply sublist_cons, IH.
  - apply (sublist_skip n), IH.
Qed.

(** X5: the alerts of a run are presented in the order in which their
    notifications were fetched: the presented notifications are, in order,
    some of the fetched [high] and [urgent] ones. *)
Theorem alerts_follow_fetch_order
    (ticks : list (option (list SystemNotification))) (r : Refs) :
  presented (run_ticks ticks r).2 `sublist_of` filter high_or_urgent (fetched ticks).
Proof.
  destruct (run_ticks_as_run_show ticks r) as [_ ->]. apply run_show_presented_sublist.
Qed.

End PollerRunsFacts.

(** ** Transport client: further properties *)

Module SocketRunsFacts.
Import Socket JsSetFacts SocketFacts RegistryFacts SocketRuns.

Lemma connect_noop w :
  isConnected w = true ∨ isConnecting (svc w) = true → connect w = (w, []).
Proof.
  intros Hg. unfold connect. destruct Hg as [-> | ->]; [done|by rewrite orb_true_r].
Qed.

Lemma connect_guarded w :
  isConnected (connect w).1 = true ∨ isConnecting (svc (connect w).1) = true.
Proof.
  unfold connect. destruct (isConnected w || isConnecting (svc w)) eqn:Hg; cbn [fst].
  - apply orb_true_iff in Hg. tauto.
  - by right.
Qed.

Lemma connect_opens_at_most_one w : opened_by (connect w).2 ≤ 1.
Proof.
  unfold connect. destruct (_ || _); cbn [snd]; [apply Nat.le_0_l|].
  rewrite !opened_by_cons. done.
Qed.

(** X6: [connect()] is idempotent: a second call right after the first does
    nothing, one call creates at most one socket, and a call on a service
    that is connected or connecting does nothing at all. *)
Theorem connect_is_idempotent (w : World) :
  connect (connect w).1 = ((connect w).1, []) ∧
  opened_by (connect w).2 ≤ 1 ∧
  (isConnected w = true ∨ isConnecting (svc w) = true → connect w = (w, [])).
Proof.
  split_and!.
  - apply connect_noop, connect_guarded.
  - apply connect_opens_at_most_one.
  - apply connect_noop.
Qed.

Lemma connect_is_idempotent_witness :
  connect (after [CallConnect; EvOpen 0] w0) = (after [CallConnect; EvOpen 0] w0, []).
Proof.
  apply (connect_is_idempotent (after [CallConnect; EvOpen 0] w0)).
  left. reflexivity.
Defined.

Lemma touches_dispatch_only out :
  Forall dispatch_only out → Forall (λ o, touches_connection o = false) out.
Proof. intros H. eapply Forall_impl; [exact H|]. by intros []. Qed.

(** X7: an error event and an inbound message, whatever it holds, leave the
    service and its sockets as they are: no socket is closed or created, no
    frame is written, no reconnect is scheduled. *)
Theorem inbound_events_leave_connection
    (e : Event) (w w' : World) (out : list Obs) :
  step e w = Some (w', out) →
  (∃ id error, e = EvError id error) ∨ (∃ id parsed, e = EvMessage id parsed) →
  w' = w ∧ Forall (λ o, touches_connection o = false) out.
Proof.
  intros Hstep [(id & err & ->)|(id & parsed & ->)]; cbn [step] in Hstep.
  - destruct (sockets w !! id) as [[]|]; try done; step_inv Hstep; (split; [done|]);
      unfold onerror; cbn [snd]; (apply Forall_cons; split; [done|]);
      apply touches_dispatch_only, emit_dispatch_only.
  - destruct (sockets w !! id) as [[]|]; try done. step_inv Hstep.
    split; [apply onmessage_quiet|].
    unfold onmessage. repeat case_match; cbn [snd];
      first [ apply touches_dispatch_only, emit_dispatch_only
            | apply touches_dispatch_only, invoke_dispatch_only
            | by repeat constructor ].
Qed.

Lemma inbound_events_leave_connection_witness :
  after [CallConnect; EvOpen 0; EvMessage 0 None; EvError 0 7] w0 =
  after [CallConnect; EvOpen 0] w0.
Proof.
  pose (w1 := after [CallConnect; EvOpen 0] w0).
  pose (w2 := after [EvMessage 0 None] w1).
  pose (w3 := after [EvError 0 7] w2).
  transitivity w3; [reflexivity|].
  transitivity w2.
  - apply (inbound_events_leave_connection (EvError 0 7) w2 w3
             (default [] (snd <$> step (EvError 0 7) w2))); [reflexivity|].
    left. by exists 0, 7.
  - apply (inbound_events_leave_connection (EvMessage 0 None) w1 w2
             (default [] (snd <$> step (EvMessage 0 None) w1))); [reflexivity|].
    right. by exists 0, None.
Defined.

Lemma invocations_app o1 o2 : invocations (o1 ++ o2) = invocations o1 ++ invocations o2.
Proof. apply omap_app. Qed.

Lemma invocations_invoke d (l : list nat) :
  invocations (map (λ handler, Invoke handler d) l) = (λ h, (h, d)) <$> l.
Proof. induction l as [|h l IH]; [done|]. cbn. by rewrite <- IH. Qed.

Lemma invocations_emit hs type d :
  invocations (emit hs type d) =
  (λ h, (h, d)) <$>
    (registered hs type ++ if decide (type = "message") then [] else registered hs "message").
Proof.
  unfold emit. change (invocations (Emit type :: ?l)) with (invocations l).
  rewrite invocations_app, fmap_app, !invocations_invoke.
  destruct (decide (type = "message")) as [->|Hne].
  - by rewrite decide_False by (by intros ?).
  - by rewrite decide_True, invocations_invoke.
Qed.

Lemma invocations_emit_message hs d :
  invocations (emit hs "message" d) = (λ h, (h, d)) <$> registered hs "message".
Proof. by rewrite invocations_emit, decide_True, app_nil_r. Qed.

(** X8: A frame that does not parse, or parses to [null], reaches no handler. A
    frame that parses reaches the handlers registered under the type it
    names and then every handler registered under ['message'], each with the
    frame as parsed; ['message'] handlers are reached once also when the
    frame has no usable type or names ['message'] itself. *)
Theorem every_parsed_frame_reaches_wildcard
    (parsed : option jsdata) (w : World) :
  invocations (onmessage parsed w).2 =
  match parsed with
  | None | Some (DVal JNull) => []
  | Some d =>
      (λ h, (h, d)) <$>
        (typed_handlers (handlers (svc w)) d ++ registered (handlers (svc w)) "message")
  end.
Proof.
  unfold onmessage, typed_handlers.
  destruct parsed as [[v|m]|]; [| |done].
  - destruct v; try done; cbn [snd]; apply invocations_emit_message.
  - destruct (m !! "type") as [v|] eqn:E; [|apply invocations_emit_message].
    destruct v as [|b|z|s|n]; cbn [truthy app].
    + apply invocations_emit_message.
    + destruct b; [apply invocations_invoke|apply invocations_emit_message].
    + destruct (negb (z =? 0)%Z); [apply invocations_invoke|apply invocations_emit_message].
    + destruct (String.eqb_spec s "") as [->|Hs]; cbn [orb snd].
      { apply invocations_emit_message. }
      rewrite invocations_emit.
      destruct (String.eqb_spec s "message") as [->|Hm].
      * by rewrite decide_True, app_nil_r.
      * by rewrite decide_False.
    + apply invocations_invoke.
Qed.

(** X9: once the attempt counter has reached the maximum, a run without a
    successful open schedules no reconnect and leaves the counter where it
    is, external calls of [connect()] included; such a call on the
    disconnected service does open a socket, and when that socket closes
    nothing is scheduled. *)
Theorem no_reconnect_after_giving_up :
  (∀ evs w w' tr,
     exec evs w = Some (w', tr) →
     Forall (λ e, is_EvOpen e = false) evs →
     maxReconnectAttempts ≤ reconnectAttempts (svc w) →
     scheduled tr = 0 ∧ reconnectAttempts (svc w') = reconnectAttempts (svc w)) ∧
  (∀ w,
     maxReconnectAttempts ≤ reconnectAttempts (svc w) →
     ws (svc w) = None → isConnecting (svc w) = false →
     ∃ w' tr, exec [CallConnect; EvClose (length (sockets w))] w = Some (w', tr) ∧
              activity tr = [(0, 1); (0, 0)]).
Proof.
  split.
  - intros evs w w' tr Hex Hno Hmax.
    destruct (exec_counter _ _ _ _ Hex Hno) as (H1 & H2 & _). lia.
  - intros w Hmax Hws Hing.
    assert (connect w =
            ({| svc := {| ws := Some (length (sockets w)); handlers := handlers (svc w);
                          reconnectAttempts := reconnectAttempts (svc w);
                          isConnecting := true |};
                sockets := sockets w ++ [CONNECTING]; timers := timers w;
                location_protocol := location_protocol w;
                location_host := location_host w |}, (connect w).2)
            ∧ opened_by (connect w).2 = 1) as [Hc Ho].
    { unfold connect, isConnected. rewrite Hws, Hing. cbn [orb fst snd].
      by rewrite !opened_by_cons. }
    cbn [exec step]. rewrite Hc. cbn [sockets].
    rewrite lookup_app_r, Nat.sub_diag by done. cbn [lookup list_lookup].
    match goal with |- context [onclose ?x] =>
      pose proof (onclose_attempts x) as [_ Hs]; destruct (onclose x) as [w2 out2] eqn:E end.
    eexists _, _. split; [reflexivity|].
    cbn [activity map fst snd] in *. rewrite Ho, Hs.
    rewrite decide_False by (cbn; lia).
    rewrite (proj2 (connect_attempts w)).
    unfold onclose in E. rewrite decide_False in E by (cbn; lia).
    injection E as _ <-. f_equal. f_equal. f_equal.
    unfold opened_by. rewrite filter_cons, decide_False by (by intros ?).
    fold (opened_by (emit (handlers (svc w)) "disconnected" (DObj ∅))).
    apply emit_opens_nothing.
Qed.

Lemma no_reconnect_after_giving_up_witness :
  ∃ w' tr,
    exec [CallConnect; EvClose 6] (after (CallConnect :: six_closes) w0) = Some (w', tr) ∧
    activity tr = [(0, 1); (0, 0)].
Proof.
  destruct no_reconnect_after_giving_up as [_ H].
  apply (H (after (CallConnect :: six_closes) w0)); [vm_compute; lia|reflexivity..].
Defined.

Lemma connect_sound w : Sound w → Sound (connect w).1.
Proof.
  intros [Ha Hw Hc]. unfold connect.
  destruct (isConnected w || isConnecting (svc w)) eqn:Hg; cbn [fst]; [by split|].
  split; cbn [svc ws sockets reconnectAttempts isConnecting].
  - done.
  - intros id [= <-]. rewrite length_app. cbn [length]. lia.
  - unfold isConnected. cbn [svc ws sockets].
    rewrite lookup_app_r, Nat.sub_diag by done. cbn [lookup list_lookup].
    by intros ?%bool_decide_eq_true.
Qed.

Lemma step_sound e w w' out : Sound w → step e w = Some (w', out) → Sound w'.
Proof.
  intros HS Hstep. destruct e; cbn [step] in Hstep.
  - step_inv Hstep. by apply connect_sound.
  - step_inv Hstep. unfold disconnect.
    destruct (ws (svc w)) as [id|] eqn:E; cbn [fst]; [|exact HS].
    destruct HS as [Ha Hw Hc].
    split; unfold isConnected; cbn [svc ws sockets reconnectAttempts isConnecting]; done.
  - step_inv Hstep. unfold send. by repeat case_match.
  - step_inv Hstep. by destruct HS.
  - step_inv Hstep. by destruct HS.
  - destruct (timers w) as [|n]; [done|]. step_inv Hstep.
    apply connect_sound. by destruct HS.
  - destruct (sockets w !! id) as [[]|]; try done. step_inv Hstep.
    destruct HS as [Ha Hw Hc]. unfold onopen, set_svc, set_socket.
    split; cbn [fst svc ws sockets reconnectAttempts isConnecting].
    + apply Nat.le_0_l.
    + intros i Hi. rewrite length_insert. by apply Hw.
    + done.
  - assert (Sound (onclose (set_socket id CLOSED w)).1) as Hres.
    { destruct HS as [Ha Hw Hc]. unfold onclose, set_svc, set_socket.
      destruct (decide _) as [Hlt|Hge];
        split; unfold isConnected;
        cbn [fst svc ws sockets reconnectAttempts isConnecting] in *;
        try done; unfold maxReconnectAttempts in *; lia. }
    destruct (sockets w !! id) as [[]|]; try done; by step_inv Hstep.
  - destruct (sockets w !! id) as [[]|]; try done; by step_inv Hstep.
  - destruct (sockets w !! id) as [[]|]; try done. step_inv Hstep.
    by rewrite (proj1 (onmessage_quiet parsed w)).
Qed.

(** X10: in every state the service reaches from its start, whatever the
    application and the browser do: the attempt counter is at most the
    maximum, the service refers to a socket that was created, and it is not
    both connected and connecting. *)
Theorem reachable_states_are_sound
    (protocol host : string) (evs : list Event) (w : World)
    (tr : list (Event * list Obs)) :
  exec evs (initial protocol host) = Some (w, tr) →
  reconnectAttempts (svc w) ≤ maxReconnectAttempts ∧
  (∀ id, ws (svc w) = Some id → id < length (sockets w)) ∧
  (isConnected w = true → isConnecting (svc w) = false).
Proof.
  intros Hex. cut (Sound w); [by intros []|].
  assert (Sound (initial protocol host)) as H0.
  { split; cbn; [lia|done|done]. }
  revert Hex H0. generalize (initial protocol host). revert tr.
  induction evs as [|e evs IH]; intros tr w0 Hex H0.
  - by injection Hex as <- _.
  - apply exec_cons_inv in Hex as (w1 & out & tr1 & Hstep & Hex & _).
    eapply IH; [done|]. by eapply step_sound.
Qed.

Lemma reachable_states_are_sound_witness :
  reconnectAttempts (svc (after two_links w0)) ≤ maxReconnectAttempts
  ∧ isConnecting (svc (after two_links w0)) = false.
Proof.
  destruct (reachable_states_are_sound "https:" "app.example" two_links
              (after two_links w0) (default [] (snd <$> exec two_links w0)))
    as (Ha & _ & Hc); [vm_compute; reflexivity|].
  split; [exact Ha|]. apply Hc. vm_compute. reflexivity.
Defined.

(** *** Subscriptions *)

Lemma delete_add_fresh (h : nat) (l : list nat) :
  h ∉ l → JsSet.delete h (JsSet.add h l) = l.
Proof.
  intros Hh. rewrite add_fresh by done. unfold JsSet.delete.
  rewrite filter_app. rewrite filter_cons, decide_False, filter_nil, app_nil_r by (by intros ?).
  induction l as [|x l IH]; [done|].
  apply not_elem_of_cons in Hh as [Hx Hh].
  rewrite filter_cons, decide_True by done. by rewrite IH.
Qed.

Lemma delete_absent (h : nat) (l : list nat) : h ∉ l → JsSet.delete h l = l.
Proof.
  intros Hh. unfold JsSet.delete. induction l as [|x l IH]; [done|].
  apply not_elem_of_cons in Hh as [Hx Hh].
  rewrite filter_cons, decide_True by done. by rewrite IH.
Qed.

(** X11: subscribing a handler that is not yet registered under the type and
    calling the disposer gives back the registry as it was, for every type;
    and after a disposer has run its handler is not registered under its
    type, whatever happened before. *)
Theorem subscribe_then_dispose_restores
    (type : string) (handler : nat) (hs : gmap string (list nat)) :
  (handler ∉ registered hs type →
     ∀ t, registered (unsubscribe type handler (on type handler hs)) t = registered hs t) ∧
  (handler ∉ registered (unsubscribe type handler hs) type) ∧
  (∀ t h, (t, h) ≠ (type, handler) →
     (h ∈ registered (unsubscribe type handler hs) t ↔ h ∈ registered hs t)).
Proof.
  split_and!.
  - intros Hfresh t. rewrite registered_unsubscribe, !registered_on.
    destruct (decide (t = type)) as [->|Hne]; [|done].
    rewrite decide_True by done. by apply delete_add_fresh.
  - rewrite registered_unsubscribe, decide_True by done.
    rewrite elem_of_delete. by intros [? _].
  - intros t h Hne. rewrite registered_unsubscribe.
    destruct (decide (t = type)) as [->|Ht]; [|done].
    rewrite elem_of_delete. split; [by intros [_ ?]|].
    intros Hin. split; [|done]. intros ->. done.
Qed.

Lemma subscribe_then_dispose_restores_witness :
  registered (unsubscribe "connected" 9 (on "connected" 9 (registry_after (reg_ops registrations))))
    "connected" = [3; 1]
  ∧ (3 ∈ registered (unsubscribe "connected" 9 (registry_after (reg_ops registrations)))
           "connected").
Proof.
  destruct (subscribe_then_dispose_restores "connected" 9
              (registry_after (reg_ops registrations))) as (Hround & _ & Hother).
  split.
  - rewrite Hround; [reflexivity|]. vm_compute. intros H.
    repeat (apply elem_of_cons in H as [H|H]; [discriminate|]). by apply elem_of_nil in H.
  - apply Hother; [discriminate|]. vm_compute. left.
Defined.

Lemma add_add (h : nat) (l : list nat) : JsSet.add h (JsSet.add h l) = JsSet.add h l.
Proof. apply add_present, elem_of_add. by left. Qed.

Lemma delete_delete (h : nat) (l : list nat) :
  JsSet.delete h (JsSet.delete h l) = JsSet.delete h l.
Proof. apply delete_absent. rewrite elem_of_delete. by intros [? _]. Qed.

(** X12: registering a handler twice under a type is registering it once: the
    registry holds it once, at its first place, and one call of either
    disposer ends the subscription. Calling a disposer twice is calling it
    once. *)
Theorem double_subscription_is_single
    (type : string) (handler : nat) (hs : gmap string (list nat)) :
  on type handler (on type handler hs) = on type handler hs ∧
  unsubscribe type handler (unsubscribe type handler hs) = unsubscribe type handler hs ∧
  handler ∉ registered (unsubscribe type handler (on type handler (on type handler hs))) type.
Proof.
  split_and!.
  - apply map_eq. intros t. unfold on at 1.
    assert (is_Some (on type handler hs !! type)) as [l Hl].
    { unfold on. rewrite lookup_alter, decide_True by done.
      destruct (hs !! type) eqn:E; [rewrite E|rewrite lookup_insert_eq]; cbn; eauto. }
    rewrite Hl. rewrite lookup_alter. case_decide as Ht; [subst t|done].
    rewrite Hl. cbn. f_equal. apply add_present.
    assert (registered (on type handler hs) type = l) as <-
      by (unfold registered; by rewrite Hl).
    rewrite registered_on, decide_True by done. apply elem_of_add. by left.
  - apply map_eq. intros t. unfold unsubscribe. rewrite !lookup_alter.
    case_decide; [subst t|done]. rewrite decide_True by done.
    destruct (hs !! type) as [l|]; [|done]. cbn. by rewrite delete_delete.
  - rewrite registered_unsubscribe, decide_True by done.
    rewrite elem_of_delete. by intros [? _].
Qed.

End SocketRunsFacts.

(** ** The hook [useWebSocket] *)

Module HookFacts.
Import Socket JsSetFacts SocketFacts RegistryFacts SocketRuns SocketRunsFacts Hook.

Lemma registered_subscribe_all (l : list (string * nat)) hs t :
  registered (foldl (λ hs p, on p.1 p.2 hs) hs l) t =
  foldl (λ acc p, if decide (t = p.1) then JsSet.add p.2 acc else acc) (registered hs t) l.
Proof.
  revert hs. induction l as [|p l IH]; intros hs; [done|].
  cbn [foldl]. rewrite IH, registered_on. by case_decide; subst.
Qed.

Lemma registered_dispose_all (l : list (string * nat)) hs t :
  registered (foldl (λ hs p, unsubscribe p.1 p.2 hs) hs l) t =
  foldl (λ acc p, if decide (t = p.1) then JsSet.delete p.2 acc else acc) (registered hs t) l.
Proof.
  revert hs. induction l as [|p l IH]; intros hs; [done|].
  cbn [foldl]. rewrite IH, registered_unsubscribe. by case_decide; subst.
Qed.

Lemma fold_other_types {A} (f : nat → A → A) (l : list (string * nat)) (t : string) (acc : A) :
  t ∉ l.*1 →
  foldl (λ acc p, if decide (t = p.1) then f p.2 acc else acc) acc l = acc.
Proof.
  induction l as [|p l IH]; [done|]. cbn [fmap list_fmap foldl].
  intros [Hp Hl]%not_elem_of_cons. rewrite decide_False by done. by apply IH.
Qed.

(** Subscriptions under pairwise different types, none of them registered
    before: subscribing them all and disposing them all gives back every
    list of the registry. *)
Lemma subscribe_dispose_all (l : list (string * nat)) (t : string) (acc : list nat) :
  NoDup l.*1 →
  Forall (λ p, p.1 = t → p.2 ∉ acc) l →
  foldl (λ acc p, if decide (t = p.1) then JsSet.delete p.2 acc else acc)
    (foldl (λ acc p, if decide (t = p.1) then JsSet.add p.2 acc else acc) acc l) l = acc.
Proof.
  revert acc. induction l as [|p l IH]; intros acc Hnd Hfresh; [done|].
  cbn [fmap list_fmap] in Hnd. apply NoDup_cons in Hnd as [Hp Hnd].
  apply Forall_cons in Hfresh as [Hpf Hfresh]. cbn [foldl].
  destruct (decide (t = p.1)) as [->|Hne].
  - rewrite !(fold_other_types _ l) by done. apply delete_add_fresh. by apply Hpf.
  - by apply IH.
Qed.

Lemma subscriptions_types_NoDup hh : NoDup (subscriptions hh).*1.
Proof.
  unfold subscriptions. destruct (hMessage hh); cbn;
    repeat (apply NoDup_cons; split;
            [intros H; repeat (apply elem_of_cons in H as [H|H]; [discriminate|]);
             by apply elem_of_nil in H|]);
    apply NoDup_nil_2.
Qed.

Lemma connect_registry w : handlers (svc (connect w).1) = handlers (svc w).
Proof. unfold connect. by destruct (_ || _). Qed.

(** X13: mounting the hook and running its cleanup: with the closures of the
    effect not registered before (they are new each time), the cleanup gives
    back every list of the registry as it was before the effect, other
    subscribers included; while mounted each closure is registered under its
    type; mounting creates at most one socket; and the cleanup does not touch
    the connection. *)
Theorem hook_cleanup_restores_registry (hh : Handlers) (w : World) :
  fresh hh (handlers (svc w)) →
  let w1 := (mount hh w).1 in
  let w2 := cleanup hh w1 in
  (∀ t, registered (handlers (svc w2)) t = registered (handlers (svc w)) t) ∧
  (∀ p, p ∈ subscriptions hh → p.2 ∈ registered (handlers (svc w1)) p.1) ∧
  opened_by (mount hh w).2 ≤ 1 ∧
  sockets w2 = sockets w1 ∧ ws (svc w2) = ws (svc w1) ∧ timers w2 = timers w1 ∧
  reconnectAttempts (svc w2) = reconnectAttempts (svc w1) ∧
  isConnecting (svc w2) = isConnecting (svc w1).
Proof.
  intros Hfresh w1 w2. unfold w2, w1, cleanup, mount.
  pose proof (connect_registry w) as Hreg.
  pose proof (connect_opens_at_most_one w) as Hopen.
  destruct (connect w) as [wc out]. cbn [fst snd] in *.
  cbn [set_handlers set_svc svc handlers sockets ws timers reconnectAttempts isConnecting].
  rewrite Hreg. split_and!; try done.
  - intros t. rewrite registered_dispose_all, registered_subscribe_all.
    apply subscribe_dispose_all; [apply subscriptions_types_NoDup|].
    eapply Forall_impl; [exact Hfresh|]. intros p Hp <-. exact Hp.
  - intros p Hp. rewrite registered_subscribe_all.
    pose proof (subscriptions_types_NoDup hh) as Hnd.
    apply list_elem_of_split in Hp as (l1 & l2 & Hl). rewrite Hl in *.
    rewrite fmap_app in Hnd. cbn [fmap list_fmap] in Hnd.
    apply NoDup_app in Hnd as (_ & _ & Hnd). apply NoDup_cons in Hnd as [Hp2 _].
    rewrite foldl_app. cbn [foldl]. rewrite decide_True by done.
    rewrite fold_other_types by done. apply elem_of_add. by left.
Qed.

Lemma hook_cleanup_restores_registry_witness :
  registered (handlers (svc (cleanup sample_handlers
                               (mount sample_handlers (after registrations w0)).1)))
    "connected" = [3; 1].
Proof.
  destruct (hook_cleanup_restores_registry sample_handlers (after registrations w0))
    as (Hround & _).
  - unfold fresh. vm_compute.
    repeat (apply Forall_cons; split;
            [intros H; repeat (apply elem_of_cons in H as [H|H]; [discriminate|]);
             by apply elem_of_nil in H|]).
    apply Forall_nil_2.
  - rewrite Hround. vm_compute. reflexivity.
Defined.

Lemma frame_of_message message : frame_of (mtype message) (to_object message) = to_object message.
Proof.
  apply map_eq. intros k. rewrite frame_of_lookup. unfold to_object.
  destruct (decide (k = "type")) as [->|Hk].
  - by rewrite lookup_insert_eq.
  - by destruct (<["type":=JStr (mtype message)]> (mfields message) !! k).
Qed.

(** X14: [sendMessage(message)] on a connected service writes the message object
    itself, all its fields and its own type, and nothing else; on a service
    that is not connected it only warns. The service is unchanged. *)
Theorem sendMessage_writes_message_unchanged (message : WebSocketMessage) (w : World) :
  (sendMessage message w).1 = w ∧
  (isConnected w = true →
     ∃ id, ws (svc w) = Some id ∧
           (sendMessage message w).2 = [WsSend id (to_object message)]) ∧
  (isConnected w = false →
     (sendMessage message w).2 =
       [ConsoleWarn "WebSocket not connected, cannot send message"]).
Proof.
  unfold sendMessage, send, isConnected. rewrite frame_of_message.
  destruct (ws (svc w)) as [id|]; [|by split_and!].
  destruct (bool_decide _); split_and!; try done. intros _. by exists id.
Qed.

Lemma sendMessage_writes_message_unchanged_witness :
  (sendMessage {| mtype := "ping"; mfields := {[ "n" := JNum 1 ]} |}
     (after [CallConnect; EvOpen 0] w0)).2 =
    [WsSend 0 (<["type" := JStr "ping"]> {[ "n" := JNum 1 ]})]
  ∧ (sendMessage {| mtype := "ping"; mfields := ∅ |} w0).2 =
    [ConsoleWarn "WebSocket not connected, cannot send message"].
Proof.
  split.
  - destruct (sendMessage_writes_message_unchanged
                {| mtype := "ping"; mfields := {[ "n" := JNum 1 ]} |}
                (after [CallConnect; EvOpen 0] w0)) as (_ & Hc & _).
    destruct Hc as (id & Hid & ->); [reflexivity|].
    vm_compute in Hid. injection Hid as <-. reflexivity.
  - apply (sendMessage_writes_message_unchanged {| mtype := "ping"; mfields := ∅ |} w0).
    reflexivity.
Defined.

(** X15: the hook's [resumeJob(jobId)] shows its success toast whether or not the
    frame went out: connected, the frame [{type: 'job:resume', job_id}] is
    written first; not connected, the frame is dropped with a warning, and
    the toast shows all the same. *)
Theorem hook_resumeJob_always_toasts (jobId : string) (w : World) :
  (Hook.resumeJob jobId w).1 = w ∧
  (isConnected w = true →
     ∃ id, ws (svc w) = Some id ∧
       (Hook.resumeJob jobId w).2 =
         [Service (WsSend id (<["type" := JStr "job:resume"]> {[ "job_id" := JStr jobId ]}));
          ToastSuccess "Resuming job..."]) ∧
  (isConnected w = false →
     (Hook.resumeJob jobId w).2 =
       [Service (ConsoleWarn "WebSocket not connected, cannot send message");
        ToastSuccess "Resuming job..."]).
Proof.
  assert (frame_of "job:resume" {[ "job_id" := JStr jobId ]} =
          <["type" := JStr "job:resume"]> {[ "job_id" := JStr jobId ]}) as Hframe.
  { apply map_eq. intros k. rewrite frame_of_lookup.
    destruct (decide (k = "type")) as [->|Hk].
    - by rewrite lookup_insert_eq, lookup_singleton_ne.
    - rewrite lookup_insert_ne by done.
      by destruct ({[ "job_id" := JStr jobId ]} !! k). }
  unfold Hook.resumeJob, Socket.resumeJob, send, isConnected. rewrite Hframe.
  destruct (ws (svc w)) as [id|]; [|by split_and!].
  destruct (bool_decide _); split_and!; try done. intros _. by exists id.
Qed.

Lemma hook_resumeJob_always_toasts_witness :
  (Hook.resumeJob "J1" w0).2 =
    [Service (ConsoleWarn "WebSocket not connected, cannot send message");
     ToastSuccess "Resuming job..."].
Proof. apply (hook_resumeJob_always_toasts "J1" w0). reflexivity. Defined.

End HookFacts.

(** ** Job store: status events and actions *)

Module JobActionsFacts.
Import JobStore JobActions.

Lemma with_status_twice j s1 s2 : with_status (with_status j s1) s2 = with_status j s2.
Proof. done. Qed.

Lemma with_status_id j s : id (with_status j s) = id j.
Proof. done. Qed.

(** X16: of two status events for the same job the later one wins, whatever the
    first one said; in particular the same event applied twice is applied
    once. *)
Theorem later_status_event_wins (id0 s1 s2 : string) (state : JobState) :
  updateJobStatus id0 s2 (updateJobStatus id0 s1 state) = updateJobStatus id0 s2 state.
Proof.
  unfold updateJobStatus. cbn [jobs selectedJob isLoading error pagination filters].
  f_equal.
  - rewrite map_map. apply map_ext. intros j.
    destruct (String.eqb (id j) id0) eqn:E; [|by rewrite E].
    by rewrite with_status_id, E.
  - destruct (selectedJob state) as [sj|]; [|done].
    destruct (String.eqb (id (job sj)) id0) eqn:E; cbn [job logs]; [|by rewrite E].
    by rewrite with_status_id, E.
Qed.

(** X17: status events for different jobs can be applied in either order. *)
Theorem status_events_of_different_jobs_commute
    (id1 id2 s1 s2 : string) (state : JobState) :
  id1 ≠ id2 →
  updateJobStatus id1 s1 (updateJobStatus id2 s2 state) =
  updateJobStatus id2 s2 (updateJobStatus id1 s1 state).
Proof.
  intros Hne.
  assert (∀ x, String.eqb x id1 = true → String.eqb x id2 = false) as Hex.
  { intros x ->%String.eqb_eq. by apply String.eqb_neq. }
  unfold updateJobStatus. cbn [jobs selectedJob isLoading error pagination filters].
  f_equal.
  - rewrite !map_map. apply map_ext. intros j.
    destruct (String.eqb (id j) id1) eqn:E1; destruct (String.eqb (id j) id2) eqn:E2;
      rewrite ?with_status_id, ?E1, ?E2; try done.
    by rewrite (Hex _ E1) in E2.
  - destruct (selectedJob state) as [sj|]; [|done].
    destruct (String.eqb (id (job sj)) id1) eqn:E1;
      destruct (String.eqb (id (job sj)) id2) eqn:E2; cbn [job logs];
      rewrite ?with_status_id, ?E1, ?E2; try done.
    by rewrite (Hex _ E1) in E2.
Qed.

Lemma status_events_of_different_jobs_commute_witness :
  updateJobStatus "J1" "applied" (updateJobStatus "J2" "failed" sample_store) =
  updateJobStatus "J2" "failed" (updateJobStatus "J1" "applied" sample_store).
Proof. apply status_events_of_different_jobs_commute. discriminate. Defined.

Lemma state_eq (s1 s2 : JobState) :
  jobs s1 = jobs s2 → selectedJob s1 = selectedJob s2 → isLoading s1 = isLoading s2 →
  error s1 = error s2 → pagination s1 = pagination s2 → filters s1 = filters s2 →
  s1 = s2.
Proof. destruct s1, s2. cbn. by intros -> -> -> -> -> ->. Qed.

Lemma map_status_absent id0 s (l : list Job) :
  Forall (λ j, id j ≠ id0) l →
  map (λ j, if String.eqb (id j) id0 then with_status j s else j) l = l.
Proof.
  induction 1 as [|j l Hj _ IH]; [done|]. cbn [map].
  apply String.eqb_neq in Hj. by rewrite Hj, IH.
Qed.

Lemma updateJobStatus_absent id0 new_status state :
  Forall (λ j, id j ≠ id0) (jobs state) →
  (∀ sj, selectedJob state = Some sj → id (job sj) ≠ id0) →
  updateJobStatus id0 new_status state = state.
Proof.
  intros Hjobs Hsel. apply state_eq; unfold updateJobStatus;
    cbn [jobs selectedJob isLoading error pagination filters]; try done.
  - by apply map_status_absent.
  - destruct (selectedJob state) as [sj|]; [|done].
    specialize (Hsel sj eq_refl). apply String.eqb_neq in Hsel. by rewrite Hsel.
Qed.

(** X18: A status event for a job the store does not hold, neither in the list
    nor as the selected job, changes nothing: no entry is created. *)
Theorem status_event_for_unknown_job_changes_nothing
    (id0 new_status : string) (state : JobState) :
  Forall (λ j, id j ≠ id0) (jobs state) →
  (∀ sj, selectedJob state = Some sj → id (job sj) ≠ id0) →
  updateJobStatus id0 new_status state = state.
Proof. apply updateJobStatus_absent. Qed.

Lemma status_event_for_unknown_job_changes_nothing_witness :
  updateJobStatus "J9" "applied" sample_store = sample_store.
Proof.
  apply status_event_for_unknown_job_changes_nothing.
  - repeat constructor; discriminate.
  - intros sj [= <-]. discriminate.
Defined.


End JobActionsFacts.

(** ** Job store: asynchronous actions *)

Module JobAsyncFacts.
Import JobStore JobActions JobActionsFacts.

Section actions.
Context {Err : Type} (getErrorMessage : Err → string → string).




(** X22: after [deleteJob(id)] succeeded the list holds the jobs with another id,
    in their order, and none with this id; the selected job is dropped when
    it has this id and kept otherwise; and a status event for this id that
    arrives afterwards changes nothing. *)
Theorem deleted_job_is_gone (id0 : string) (state : JobState) :
  let state' := (deleteJob_settle getErrorMessage id0 (Resolved ()) state).1 in
  jobs state' `sublist_of` jobs state ∧
  (∀ j, j ∈ jobs state' ↔ j ∈ jobs state ∧ id j ≠ id0) ∧
  selectedJob state' =
    match selectedJob state with
    | Some sj => if decide (id (job sj) = id0) then None else Some sj
    | None => None
    end ∧
  (∀ new_status, updateJobStatus id0 new_status state' = state').
Proof.
  intros state'. unfold state', deleteJob_settle.
  cbn [fst jobs selectedJob isLoading error pagination filters].
  split_and!.
  - apply sublist_filter.
  - intros j. rewrite list_elem_of_filter. tauto.
  - destruct (selectedJob state) as [sj|]; [|done].
    destruct (String.eqb_spec (id (job sj)) id0); by case_decide.
  - intros new_status. apply updateJobStatus_absent;
      cbn [jobs selectedJob].
    + apply Forall_forall. by intros j [? _]%list_elem_of_filter.
    + intros sj. destruct (selectedJob state) as [sj0|]; [|done].
      destruct (String.eqb_spec (id (job sj0)) id0); [done|]. by intros [= <-].
Qed.


(** X24: [retryJob(id)] and [resumeJob(id)], when they succeed, put the server's
    answer in place of the list entries with this id and touch nothing else:
    the other entries and the number of entries stay, and so does the
    selected job, also when it is the job retried or resumed. When the answer
    carries the id asked for, the ids of the list are the same as before, in
    the same order. *)
Theorem retry_and_resume_replace_list_entry_only
    (id0 : string) (updated : Job) (state : JobState) :
  (retryJob_settle getErrorMessage id0 (Resolved updated) state).1 =
    (resumeJob_settle getErrorMessage id0 (Resolved updated) state).1 ∧
  let state' := (retryJob_settle getErrorMessage id0 (Resolved updated) state).1 in
  length (jobs state') = length (jobs state) ∧
  (∀ i j, jobs state !! i = Some j →
     jobs state' !! i = Some (if decide (id j = id0) then updated else j)) ∧
  selectedJob state' = selectedJob state ∧
  (id updated = id0 → id <$> jobs state' = id <$> jobs state).
Proof.
  split; [done|]. intros state'. unfold state', retryJob_settle, replace_job.
  cbn [fst jobs selectedJob]. split_and!; [by rewrite length_map| |done|].
  - intros i j Hj. rewrite list_lookup_fmap, Hj. cbn.
    destruct (String.eqb_spec (id j) id0); by case_decide.
  - intros Hid. rewrite <- list_fmap_compose. apply list_fmap_ext.
    intros i j _. cbn. destruct (String.eqb_spec (id j) id0); congruence.
Qed.

End actions.


Lemma retry_and_resume_replace_list_entry_only_witness :
  id <$> jobs (retryJob_settle message_of "J1" (Resolved (sample_job "J1" "queued"))
                 sample_store).1 = ["J1"; "J2"].
Proof.
  destruct (retry_and_resume_replace_list_entry_only message_of "J1"
              (sample_job "J1" "queued") sample_store) as (_ & _ & _ & _ & Hids).
  rewrite Hids; reflexivity.
Defined.



End JobAsyncFacts.
